(** * Marcha aleatoria 1D: a shallow embedding of [marcha_aleatoria.py]

    The script draws symmetric ±1 steps with numpy's random generator,
    sums them, repeats the walk, computes sample moments, fits a line and
    plots.  The embedding keeps the shape of the Python code:

    - Python [int] and numpy [int64] values are [Z] (a walk of [n] steps
      has partial sums within [-n, n], far inside the [int64] range for
      every array that fits in memory, so the sums never wrap);
    - numpy [float64] values are exact rationals [Q] where the code only
      adds, multiplies and divides, with an explicit [NaN] for the mean
      of an empty array, and real numbers [R] where [math.sqrt], [math.pi]
      and [np.exp] come in: a value of the code is the rounding of the
      value here, so an inequality that is strict here can be an
      equality there (a density that underflows to [0.0]), and two
      values that are close can change order;
    - the limits of the machine are left out: numpy refuses an array
      size outside its index type ([OverflowError]) or too large to
      allocate, and [math.sqrt] and [np.array(..., dtype=float)] refuse
      an [int] beyond the [float64] range ([OverflowError]).  Statements
      on when a call fails name the range they hold in ([np.intp_min],
      [np.modest_size], [py.float_int_max]);
    - effects (seeding a generator from the operating system, matplotlib
      calls, printing) are threaded through a state-and-exception monad
      over a [World];
    - what the script takes from Python's builtins, [math], [numpy] and
      [matplotlib.pyplot] is modelled in the modules [py], [math], [np]
      and [plt], so that the functions of the script read as they do in
      the source. *)

From Stdlib Require Import ZArith QArith Qabs Qround Qreals Reals Lia Psatz Ascii.
From stdpp Require Import base list strings.

Local Open Scope Z_scope.

(** ** Exceptions and results *)

Inductive exn : Type :=
| ValueError
| IndexError
| TypeError
| ZeroDivisionError
| LinAlgError
| EOFError.

Inductive result (A : Type) : Type :=
| Ok (a : A)
| Raise (e : exn).
Arguments Ok {A} a.
Arguments Raise {A} e.

(** ** Numbers

    A [float64] that holds the result of rational arithmetic, or [NaN]
    (numpy's mean of an empty array). *)

Inductive float64 : Type :=
| Fin (q : Q)
| NaN.

Definition is_fin (f : float64) : Prop := exists q : Q, f = Fin q.

(** Arithmetic on [float64]: a [nan] operand gives [nan].  The script
    divides by [2] only. *)
Definition fadd (a b : float64) : float64 :=
  match a, b with
  | Fin p, Fin q => Fin (p + q)
  | _, _ => NaN
  end.

Definition fmul (a b : float64) : float64 :=
  match a, b with
  | Fin p, Fin q => Fin (p * q)
  | _, _ => NaN
  end.

Definition fdiv (a b : float64) : float64 :=
  match a, b with
  | Fin p, Fin q => Fin (p / q)
  | _, _ => NaN
  end.

Definition sumZ (l : list Z) : Z := foldr Z.add 0 l.

Definition sumQ (l : list Q) : Q := foldr Qplus 0%Q l.

Definition dotQ (x y : list Q) : Q := sumQ (zip_with Qmult x y).

(** ** The world: entropy, figures, standard output *)

(** Calls to [matplotlib.pyplot], in the order the script makes them.
    Data computed with [math] and [np.exp] is real-valued ([PltPlotR]). *)
Inductive plt_cmd : Type :=
| PltFigure
| PltHist (x : list Q) (bins : Z) (density : bool) (alpha : Q) (label : string)
| PltPlotR (x y : list R) (label : string)
| PltScatter (x y : list float64) (label : string)
| PltPlot (x : list Q) (y : list float64) (slope_in_label : float64)
| PltTitleHist (n_pasos : Z) (muestras : nat)
| PltTitle (s : string)
| PltXlabel (s : string)
| PltYlabel (s : string)
| PltLegend
| PltShow.

(** What the script writes to standard output: fixed text, or a formatted
    line kept with the values it formats. *)
Inductive out : Type :=
| OutText (s : string)
| OutPosFinal (pos_final : Z)
| OutMomentos (N : Z) (u v : float64)
| OutPendiente (slope : float64)
| OutDifusion (D : float64).

(** [os_entropy k] is the stream of raw words of the generator that the
    [k]-th call of [np.random.default_rng()] seeds from the operating
    system; [rng_created] counts those calls. *)
Record World : Type := mkWorld {
  os_entropy : nat -> nat -> nat;
  rng_created : nat;
  figures : list plt_cmd;
  stdout : list out
}.

(** The world after one more generator was seeded. *)
Definition seeded (w : World) : World :=
  mkWorld (os_entropy w) (S (rng_created w)) (figures w) (stdout w).

(** The world after [k] more generators were seeded. *)
Definition advance (k : nat) (w : World) : World :=
  mkWorld (os_entropy w) (rng_created w + k) (figures w) (stdout w).

(** The world after more matplotlib calls. *)
Definition drawn_on (w : World) (cmds : list plt_cmd) : World :=
  mkWorld (os_entropy w) (rng_created w) (figures w ++ cmds) (stdout w).

(** The world after more output. *)
Definition written_on (w : World) (outs : list out) : World :=
  mkWorld (os_entropy w) (rng_created w) (figures w) (stdout w ++ outs).

(** ** The monad of the script: state and exceptions *)

Definition M (A : Type) : Type := World -> result A * World.

#[global] Instance M_ret : MRet M := fun A (a : A) w => (Ok a, w).

#[global] Instance M_bind : MBind M := fun A B (k : A -> M B) (m : M A) w =>
  match m w with
  | (Ok a, w') => k a w'
  | (Raise e, w') => (Raise e, w')
  end.

Definition raise {A} (e : exn) : M A := fun w => (Raise e, w).

(** A pure computation that can raise. *)
Definition lift {A} (r : result A) : M A := fun w => (r, w).

Definition draw (c : plt_cmd) : M unit := fun w => (Ok tt, drawn_on w [c]).

Definition print (o : out) : M unit := fun w => (Ok tt, written_on w [o]).

(** [for x in xs: body], the loop state passed from one turn to the next. *)
Fixpoint for_each {A S} (xs : list A) (body : A -> S -> M S) (s : S) : M S :=
  match xs with
  | [] => mret s
  | x :: xs' => s' ← body x s; for_each xs' body s'
  end.

(** ** Python's builtins *)

Module py.

(** [l[i]] with negative indices; out of range is [IndexError]. *)
Definition getitem {A} (l : list A) (i : Z) : result A :=
  let n := Z.of_nat (length l) in
  let j := if i <? 0 then i + n else i in
  if (j <? 0) || (n <=? j) then Raise IndexError
  else
    match l !! Z.to_nat j with
    | Some x => Ok x
    | None => Raise IndexError
    end.

(** [arr[i] = x], with negative indices. *)
Definition setitem {A} (l : list A) (i : Z) (x : A) : result (list A) :=
  let n := Z.of_nat (length l) in
  let j := if i <? 0 then i + n else i in
  if (j <? 0) || (n <=? j) then Raise IndexError
  else Ok (<[Z.to_nat j := x]> l).

(** [range(n)]. *)
Definition range (n : Z) : list Z := map Z.of_nat (seq 0 (Z.to_nat n)).

(** [min] and [max] over a sequence: the first smallest (largest)
    element; an empty sequence is a [ValueError]. *)
Definition min (l : list Q) : result Q :=
  match l with
  | [] => Raise ValueError
  | x :: l' => Ok (foldl (fun m y => if Qlt_le_dec y m then y else m) x l')
  end.

Definition max (l : list Q) : result Q :=
  match l with
  | [] => Raise ValueError
  | x :: l' => Ok (foldl (fun m y => if Qlt_le_dec m y then y else m) x l')
  end.

(** Every [int] up to [float_int_max] in absolute value converts to a
    [float64]; far beyond it the conversion is an [OverflowError], which
    is left out here. *)
Definition float_int_max : Z := 2 ^ 1023.

(** Float division: a zero divisor is a [ZeroDivisionError]. *)
Definition float_div (x y : R) : result R :=
  if Req_dec_T y 0 then Raise ZeroDivisionError else Ok (x / y)%R.

Definition is_space (c : ascii) : bool :=
  let n := nat_of_ascii c in
  ((9 <=? n) && (n <=? 13) || (28 <=? n) && (n <=? 32))%nat.

Definition is_digit (c : ascii) : bool :=
  let n := nat_of_ascii c in ((48 <=? n) && (n <=? 57))%nat.

Definition digit_value (c : ascii) : Z := Z.of_nat (nat_of_ascii c - 48).

Fixpoint lstrip (l : list ascii) : list ascii :=
  match l with
  | c :: l' => if is_space c then lstrip l' else l
  | [] => []
  end.

(** [str.strip()]. *)
Definition strip (l : list ascii) : list ascii :=
  reverse (lstrip (reverse (lstrip l))).

(** Decimal digits, single underscores allowed between two digits. *)
Fixpoint digits (acc : Z) (after_digit : bool) (l : list ascii) : option Z :=
  match l with
  | [] => if after_digit then Some acc else None
  | c :: l' =>
      if is_digit c then digits (10 * acc + digit_value c) true l'
      else if Ascii.eqb c "_" && after_digit then digits acc false l'
      else None
  end.

(** [int(s)] for a string of ASCII characters: blanks around, an
    optional sign, digits.  Anything else is a [ValueError].  Python's
    [int] also takes the decimal digits and blanks of other scripts and
    refuses more than 4300 digits: on such strings this function is not
    Python's, and what is stated of the menu loop for every input is
    stated of [main_with], for any [int]. *)
Definition int (s : string) : result Z :=
  let body := strip (String.list_ascii_of_string s) in
  let '(sign, ds) :=
    match body with
    | "-"%char :: l => (-1, l)
    | "+"%char :: l => (1, l)
    | l => (1, l)
    end in
  match digits 0 false ds with
  | Some n => Ok (sign * n)
  | None => Raise ValueError
  end.

Fixpoint split_chars (sep : ascii) (cur : list ascii) (l : list ascii) : list string :=
  match l with
  | [] => [String.string_of_list_ascii (reverse cur)]
  | c :: l' =>
      if Ascii.eqb c sep
      then String.string_of_list_ascii (reverse cur) :: split_chars sep [] l'
      else split_chars sep (c :: cur) l'
  end.

(** [s.split(sep)] for a one-character separator. *)
Definition split (sep : ascii) (s : string) : list string :=
  split_chars sep [] (String.list_ascii_of_string s).

(** [[f(x) for x in xs]] for an [f] that can raise. *)
Fixpoint comprehension {A B} (f : A -> result B) (xs : list A) : result (list B) :=
  match xs with
  | [] => Ok []
  | x :: xs' =>
      match f x with
      | Raise e => Raise e
      | Ok y =>
          match comprehension f xs' with
          | Raise e => Raise e
          | Ok ys => Ok (y :: ys)
          end
      end
  end.

End py.

(** ** The [math] module *)

Module math.

(** [math.sqrt]: a negative argument is a [ValueError] (math domain
    error).  The argument is the exact real; an [int] beyond
    [py.float_int_max] is left out (see the head of the file). *)
Definition sqrt (x : R) : result R :=
  if Rlt_dec x 0 then Raise ValueError else Ok (R_sqrt.sqrt x).

Definition pi : R := PI.

End math.

(** ** numpy *)

Module np.

(** A generator: its stream of raw words and how many it has consumed. *)
Record Generator : Type := mkGenerator {
  words : nat -> nat;
  drawn : nat
}.

(** [np.random.default_rng()]: a new generator seeded with fresh entropy
    from the operating system. *)
Definition default_rng : M Generator :=
  fun w => (Ok (mkGenerator (os_entropy w (rng_created w)) 0), seeded w).

(** [Generator.integers(0, high, size)]: [size] indices below [high], one
    raw word each; the generator advances. *)
Definition integers (g : Generator) (high : nat) (size : nat) : list nat * Generator :=
  (map (fun k => (words g (drawn g + k) mod high)%nat) (seq 0 size),
   mkGenerator (words g) (drawn g + size)).

(** [a[idx]] for an index array. *)
Definition fancy_index (a : list Z) (idx : list nat) : list Z :=
  map (fun i => nth i a 0) idx.

(** The least value of numpy's index type on a 64-bit platform: a size
    below it is an [OverflowError], which is left out here, as is a size
    too large for an array. *)
Definition intp_min : Z := - 2 ^ 63.

(** A size that any machine running the script holds in memory many
    times over.  Statements on which exception ends a call that
    allocates are made for sizes up to it. *)
Definition modest_size : Z := 10 ^ 6.

(** [Generator.choice(a, size=size)] with replacement and no weights:
    [a[integers(0, len(a), size)]].  A negative size and an empty [a]
    with a non-zero size raise [ValueError]. *)
Definition choice (g : Generator) (a : list Z) (size : Z)
  : result (list Z) * Generator :=
  if size <? 0 then (Raise ValueError, g)
  else if (length a =? 0)%nat && negb (size =? 0) then (Raise ValueError, g)
  else
    let '(idx, g') := integers g (length a) (Z.to_nat size) in
    (Ok (fancy_index a idx), g').

Fixpoint cumsum_from (acc : Z) (l : list Z) : list Z :=
  match l with
  | [] => []
  | x :: l' => (acc + x) :: cumsum_from (acc + x) l'
  end.

(** [ndarray.cumsum()]. *)
Definition cumsum (l : list Z) : list Z := cumsum_from 0 l.

(** [np.empty(n)]: a [float64] array of [n] entries that are not
    initialised (here [0]; the script overwrites every entry before it
    reads it).  A negative length is a [ValueError]. *)
Definition empty (n : Z) : result (list Q) :=
  if n <? 0 then Raise ValueError else Ok (replicate (Z.to_nat n) 0%Q).

(** [np.linspace(start, stop, num)] with the end point included. *)
Definition linspace (start stop : Q) (num : nat) : list Q :=
  map (fun k => start + inject_Z (Z.of_nat k)
                        * ((stop - start) / inject_Z (Z.of_nat (num - 1))))%Q
      (seq 0 num).

(** [ndarray.mean()]: the mean of an empty array is [nan] (with a
    warning).  The mean is exact here; the code returns its rounding. *)
Definition mean (l : list Q) : float64 :=
  match l with
  | [] => NaN
  | _ => Fin (sumQ l / inject_Z (Z.of_nat (length l)))
  end.

(** [arr ** 2]. *)
Definition squares (l : list Q) : list Q := map (fun x => x * x)%Q l.

(** The finite entries of a float array, when all of them are finite. *)
Fixpoint finite_values (l : list float64) : option (list Q) :=
  match l with
  | [] => Some []
  | Fin q :: l' =>
      match finite_values l' with
      | Some qs => Some (q :: qs)
      | None => None
      end
  | NaN :: _ => None
  end.

(** The least-squares line through the points [(x_i, y_i)], as
    [np.polyfit] gets it from [lstsq] on the scaled columns [x] and [1].
    An all-zero [x] makes the scaling divide zero by zero and the solver
    fail with [LinAlgError].  When all [x_i] are equal the system has
    rank one and the solver returns its minimum-norm solution in the
    scaled columns, which is [(ybar / (2 xbar), ybar / 2)]; otherwise
    the normal equations have one solution. *)
Definition lstsq_line (x ys : list Q) : result (Q * Q) :=
  let n := inject_Z (Z.of_nat (length x)) in
  let Sx := sumQ x in
  let Sy := sumQ ys in
  let Sxx := dotQ x x in
  let Sxy := dotQ x ys in
  let det := (n * Sxx - Sx * Sx)%Q in
  if Qeq_bool Sxx 0 then Raise LinAlgError
  else if Qeq_bool det 0 then
    Ok ((Sy / n) / (2 * (Sx / n)), (Sy / n) / 2)%Q
  else
    let slope := ((n * Sxy - Sx * Sy) / det)%Q in
    Ok (slope, (Sy - slope * Sx) / n)%Q.

(** [np.polyfit(x, y, 1)] in exact arithmetic, returned as
    [(slope, intercept)].  An empty [x] and arrays of different lengths
    are a [TypeError].  A [nan] in [y] is no error: the solver returns
    [nan] for both coefficients (the scaled columns of an all-zero [x]
    still make it fail). *)
Definition polyfit1 (x : list Q) (y : list float64) : result (float64 * float64) :=
  if (length x =? 0)%nat then Raise TypeError
  else if negb (length x =? length y)%nat then Raise TypeError
  else
    match finite_values y with
    | None => if Qeq_bool (dotQ x x) 0 then Raise LinAlgError else Ok (NaN, NaN)
    | Some ys =>
        match lstsq_line x ys with
        | Ok (slope, intercept) => Ok (Fin slope, Fin intercept)
        | Raise e => Raise e
        end
    end.

(** [np.histogram(x, bins, density=True)], which [plt.hist] draws:
    [bins] bins of equal width over [[min x, max x]] (widened by one
    half on each side when all data are equal), the last bin closed on
    the right, each count divided by the number of data and by the
    width. *)
Definition hist_range (x : list Q) : result (Q * Q) :=
  match py.min x, py.max x with
  | Ok lo, Ok hi =>
      if Qeq_bool lo hi then Ok (lo - (1 # 2), hi + (1 # 2))%Q else Ok (lo, hi)
  | _, _ => Raise ValueError
  end.

Definition bin_width (lo hi : Q) (bins : nat) : Q :=
  ((hi - lo) / inject_Z (Z.of_nat bins))%Q.

Definition bin_index (lo hi : Q) (bins : nat) (v : Q) : nat :=
  if Qle_bool hi v then (bins - 1)%nat
  else Z.to_nat (Qfloor ((v - lo) / bin_width lo hi bins)).

Definition count_in (lo hi : Q) (bins : nat) (x : list Q) (k : nat) : nat :=
  length (List.filter (fun v => (bin_index lo hi bins v =? k)%nat) x).

Definition hist_density (x : list Q) (bins : nat) : result (list Q) :=
  match hist_range x with
  | Ok (lo, hi) =>
      Ok (map (fun k => inject_Z (Z.of_nat (count_in lo hi bins x k))
                        / bin_width lo hi bins
                        / inject_Z (Z.of_nat (length x)))%Q
              (seq 0 bins))
  | Raise e => Raise e
  end.

End np.

(** ** matplotlib.pyplot *)

Module plt.

Definition figure : M unit := draw PltFigure.

(** [plt.hist(x, bins, density=..., alpha=..., label=...)]: the number
    of bins must be positive; empty data is drawn as an empty
    histogram. *)
Definition hist (x : list Q) (bins : Z) (density : bool) (alpha : Q) (label : string)
  : M unit :=
  if bins <=? 0 then raise ValueError else draw (PltHist x bins density alpha label).

Definition plot_curve (x y : list R) (label : string) : M unit :=
  draw (PltPlotR x y label).

Definition scatter (x y : list float64) (label : string) : M unit :=
  draw (PltScatter x y label).

Definition plot (x : list Q) (y : list float64) (slope_in_label : float64) : M unit :=
  draw (PltPlot x y slope_in_label).

Definition title_hist (n_pasos : Z) (muestras : nat) : M unit :=
  draw (PltTitleHist n_pasos muestras).

Definition title (s : string) : M unit := draw (PltTitle s).
Definition xlabel (s : string) : M unit := draw (PltXlabel s).
Definition ylabel (s : string) : M unit := draw (PltYlabel s).
Definition legend : M unit := draw PltLegend.
Definition show : M unit := draw PltShow.

End plt.

(** ** The script *)

Definition step_length : Z := 1.

Definition marcha (n_pasos : Z) : M Z :=
  random ← np.default_rng;
  let '(r, _) := np.choice random [- step_length; step_length] n_pasos in
  pasos ← lift r;
  let pos := np.cumsum pasos in
  lift (py.getitem pos (-1)).

Definition pos_finales (n_pasos runs : Z) : M (list Q) :=
  finales ← lift (np.empty runs);
  for_each (py.range runs)
    (fun i finales =>
       x ← marcha n_pasos;
       lift (py.setitem finales i (inject_Z x)))
    finales.

Definition histograma (posi_finales : list Q) (n_pasos : Z) (bins : Z) : M unit :=
  root ← lift (math.sqrt (IZR n_pasos));
  let sigma := (root * IZR step_length)%R in
  plt.figure;;
  plt.hist posi_finales bins true (6 # 10) "Programa";;
  lo ← lift (py.min posi_finales);
  hi ← lift (py.max posi_finales);
  let x := np.linspace lo hi 500 in
  norm ← lift (py.float_div 1 (sqrt (2 * math.pi) * sigma));
  let TCL := map (fun xi => norm * exp (- (1 / 2) * (Q2R xi / sigma) ^ 2))%R x in
  plt.plot_curve (map Q2R x) TCL "TCL";;
  plt.title_hist n_pasos (length posi_finales);;
  plt.xlabel "Posición final x";;
  plt.ylabel "Densidad de probabilidad";;
  plt.legend;;
  plt.show.

(** The default of [histograma]'s parameter [bins]. *)
Definition bins_default : Z := 50.

Definition momentos_vs_N (valores_N : list Z) (runs : Z)
  : M (list float64 * list float64 * float64 * float64) :=
  '(medios, medios_x2) ←
    for_each valores_N
      (fun N '(medios, medios_x2) =>
         finales ← pos_finales N runs;
         mret (medios ++ [np.mean finales],
               medios_x2 ++ [np.mean (np.squares finales)]))
      ([], []);
  let N_arr := map inject_Z valores_N in
  let m1 := medios in
  let m2 := medios_x2 in
  '(slope, intercept) ← lift (np.polyfit1 N_arr m2);
  let D := fdiv slope (Fin 2%Q) in
  plt.figure;;
  plt.scatter (map Fin N_arr) m2 "Programa";;
  plt.plot N_arr (map (fun N => fadd (fmul slope (Fin N)) intercept) N_arr) slope;;
  plt.xlabel "N";;
  plt.ylabel "⟨x^2⟩";;
  plt.title "⟨x^2⟩ vs N";;
  plt.legend;;
  plt.show;;
  mret (m1, m2, slope, D).

Definition prompt_opcion : string := "Seleccione una opción: ".
Definition prompt_N : string := "Número de pasos N: ".
Definition prompt_runs : string := "Número de corridas: ".
Definition prompt_lista : string :=
  "Lista de valores de N separados por coma (100,300,600,1000): ".
Definition prompt_runs_N : string := "Número de corridas por cada N: ".
Definition msg_no_valida : string := "Opción no válida.".

(** The lines [menu] prints, and the prompt of its [input]. *)
Definition menu_print : M unit :=
  print (OutText "Simulación de marcha aleatoria 1D");;
  print (OutText "1) Una sola marcha");;
  print (OutText "2) Histograma de posiciones finales vs TCL");;
  print (OutText "3) Momentos ⟨x⟩ y ⟨x^2⟩ vs N");;
  print (OutText "0) Salir");;
  print (OutText prompt_opcion).

(** [main] reads standard input line by line: [stdin] holds the lines not
    yet read.  [input(prompt)] writes the prompt and takes the next line;
    at the end of the input it raises [EOFError].  Every turn of the
    [while True] loop takes at least the line of [menu], so the loop is a
    recursion on [stdin].  The builtin [int] is a parameter of the loop,
    so that what the loop does with the lines it reads can be stated
    for whatever strings [int] accepts. *)
Fixpoint main_with (int : string -> result Z) (stdin : list string) : M unit :=
  menu_print;;
  match stdin with
  | [] => raise EOFError
  | opcion :: stdin =>
      if String.eqb opcion "1" then
        print (OutText prompt_N);;
        match stdin with
        | [] => raise EOFError
        | line :: stdin =>
            N ← lift (int line);
            pos_final ← marcha N;
            print (OutPosFinal pos_final);;
            main_with int stdin
        end
      else if String.eqb opcion "2" then
        print (OutText prompt_N);;
        match stdin with
        | [] => raise EOFError
        | line :: stdin =>
            N ← lift (int line);
            print (OutText prompt_runs);;
            match stdin with
            | [] => raise EOFError
            | line :: stdin =>
                runs ← lift (int line);
                finales ← pos_finales N runs;
                histograma finales N bins_default;;
                main_with int stdin
            end
        end
      else if String.eqb opcion "3" then
        print (OutText prompt_lista);;
        match stdin with
        | [] => raise EOFError
        | lista :: stdin =>
            N_vals ← lift (py.comprehension int (py.split "," lista));
            print (OutText prompt_runs_N);;
            match stdin with
            | [] => raise EOFError
            | line :: stdin =>
                runs ← lift (int line);
                '(medios, medios_x2, slope, D) ← momentos_vs_N N_vals runs;
                print (OutText "Resultados:");;
                for_each (zip N_vals (zip medios medios_x2))
                  (fun '(N, (u, v)) _ => print (OutMomentos N u v)) tt;;
                print (OutPendiente slope);;
                print (OutDifusion D);;
                main_with int stdin
            end
        end
      else if String.eqb opcion "0" then
        mret tt
      else
        print (OutText msg_no_valida);;
        main_with int stdin
  end.

(** The script's [main], with the model [py.int] of the builtin. *)
Definition main : list string -> M unit := main_with py.int.

(** ** Definitions for the statements *)

(** The steps a generator with raw words [g] yields for an [n]-step walk. *)
Definition pasos_of (g : nat -> nat) (n : nat) : list Z :=
  np.fancy_index [- step_length; step_length]
                 (fst (np.integers (np.mkGenerator g 0) 2 n)).

(** The final position of that walk. *)
Definition final_of (g : nat -> nat) (n : nat) : Z := sumZ (pasos_of g n).

(** All index arrays [integers(0, high, n)] can return: the sample space
    of [n] draws, each array equally likely for a uniform generator. *)
Fixpoint index_draws (high n : nat) : list (list nat) :=
  match n with
  | O => [[]]
  | S n' => flat_map (fun i => map (cons i) (index_draws high n')) (seq 0 high)
  end.

Definition is_step (s : Z) : Prop := s = -1 \/ s = 1.

(** How many of the index arrays of [n] draws yield the steps [s]. *)
Definition draws_yielding (s : list Z) (n : nat) : nat :=
  length (filter (fun idx => np.fancy_index [- step_length; step_length] idx = s)
                 (index_draws 2 n)).

(** How many of the index arrays of [n] draws give the value [v] to the
    step number [i]. *)
Definition draws_with_step (i : nat) (v : Z) (n : nat) : nat :=
  length (filter (fun idx => np.fancy_index [- step_length; step_length] idx !! i = Some v)
                 (index_draws 2 n)).

(** The final position of the [n]-step walk of the [i]-th generator seeded
    after [w], as the float that [pos_finales] stores. *)
Definition trial (w : World) (n : nat) (i : nat) : Q :=
  inject_Z (final_of (os_entropy w (rng_created w + i)) n).

(** The final positions of [runs] trials seeded one after the other. *)
Definition trials (w : World) (n runs : nat) : list Q :=
  map (trial w n) (seq 0 runs).

(** The world after earlier calls [marcha n] for each [n] of [history],
    whether they returned or raised. *)
Definition after_calls (history : list Z) (w : World) : World :=
  foldl (fun w n => snd (marcha n w)) w history.

(** The area under the histogram [plt.hist] draws with [density=True]. *)
Definition hist_area (x : list Q) (bins : nat) : result Q :=
  match np.hist_range x, np.hist_density x bins with
  | Ok (lo, hi), Ok d => Ok (sumQ (map (fun dk => dk * np.bin_width lo hi bins)%Q d))
  | _, _ => Raise ValueError
  end.

(** The normal density with mean [0] and standard deviation [sigma]. *)
Definition normal_pdf (sigma x : R) : R :=
  (1 / (sqrt (2 * PI) * sigma) * exp (- x ^ 2 / (2 * sigma ^ 2)))%R.

(** The sample mean and the sample mean of squares of [runs] trials for
    each [N] of [valores_N], the trials seeded one after the other from
    the world [w] on. *)
Fixpoint moments_of (w : World) (valores_N : list Z) (runs : nat)
  : list (float64 * float64) :=
  match valores_N with
  | [] => []
  | N :: rest =>
      let finales := trials w (Z.to_nat N) runs in
      (np.mean finales, np.mean (np.squares finales))
        :: moments_of (advance runs w) rest runs
  end.

(** The matplotlib calls of [momentos_vs_N]. *)
Definition momentos_figure (N_arr : list Q) (m2 : list float64)
    (slope intercept : float64) : list plt_cmd :=
  [PltFigure;
   PltScatter (map Fin N_arr) m2 "Programa";
   PltPlot N_arr (map (fun N => fadd (fmul slope (Fin N)) intercept) N_arr) slope;
   PltXlabel "N";
   PltYlabel "⟨x^2⟩";
   PltTitle "⟨x^2⟩ vs N";
   PltLegend;
   PltShow].

(** The sum of squared residuals of the line [a x + b] on the data. *)
Definition sse (a b : Q) (x y : list Q) : Q :=
  sumQ (zip_with (fun xi yi => (yi - (a * xi + b)) * (yi - (a * xi + b)))%Q x y).

(** What one pass through [menu] writes. *)
Definition menu_lines : list out :=
  [OutText "Simulación de marcha aleatoria 1D";
   OutText "1) Una sola marcha";
   OutText "2) Histograma de posiciones finales vs TCL";
   OutText "3) Momentos ⟨x⟩ y ⟨x^2⟩ vs N";
   OutText "0) Salir";
   OutText prompt_opcion].

(** A world for examples: generator [k] yields the words [k*i + k + i]. *)
Definition w_ex : World := mkWorld (fun k i => (k * i + k + i)%nat) 0 [] [].

(** A second world for examples, with other entropy and earlier output. *)
Definition w_ex' : World :=
  mkWorld (fun k i => if (k =? 5)%nat then (4 * i + 3)%nat else (i * i + k)%nat) 5 []
          [OutText "x"].

(** ** Definitions for further properties *)

(** A computation leaves the part [f] of the world as it is, whether it
    returns or raises. *)
Definition preserves {A B} (f : World -> B) (m : M A) : Prop :=
  forall w : World, f (snd (m w)) = f w.

(** The world only grows: same entropy, no seed given back, figures and
    output only appended to. *)
Definition extends (w w' : World) : Prop :=
  os_entropy w' = os_entropy w /\
  (rng_created w <= rng_created w')%nat /\
  figures w `prefix_of` figures w' /\
  stdout w `prefix_of` stdout w'.

Definition monotone {A} (m : M A) : Prop :=
  forall w : World, extends w (snd (m w)).

(** The final position that an index array yields. *)
Definition final_of_draw (idx : list nat) : Z :=
  sumZ (np.fancy_index [- step_length; step_length] idx).

(** The sum of [f] of the final position over the sample space of [n]
    draws. *)
Definition sum_over_draws (f : Z -> Z) (n : nat) : Z :=
  sumZ (map (fun idx => f (final_of_draw idx)) (index_draws 2 n)).

(** How many of the index arrays of [n] draws end at the position [v]. *)
Definition draws_ending_at (v : Z) (n : nat) : nat :=
  length (filter (fun idx => final_of_draw idx = v) (index_draws 2 n)).

(** Pascal's triangle. *)
Fixpoint choose (n k : nat) : nat :=
  match n, k with
  | _, O => 1
  | O, S _ => 0
  | S n', S k' => choose n' k' + choose n' k
  end.

(** The options of the menu. *)
Definition is_option (s : string) : bool :=
  String.eqb s "1" || String.eqb s "2" || String.eqb s "3" || String.eqb s "0".

(** How often the character [c] occurs in [s]. *)
Definition count_char (c : ascii) (s : string) : nat :=
  length (List.filter (Ascii.eqb c) (String.list_ascii_of_string s)).


(** [m] ends, when it ends with an exception, with one of [allowed]. *)
Definition raises_only {A} (allowed : list exn) (m : M A) : Prop :=
  forall (w : World) (e : exn), fst (m w) = Raise e -> e ∈ allowed.
(** ** Lemmas on arrays *)

Lemma cumsum_from_length acc l : length (np.cumsum_from acc l) = length l.
Proof. revert acc; induction l as [|x l IH]; intros acc; simpl; [done | by rewrite IH]. Qed.

Lemma cumsum_from_last acc x l :
  last (np.cumsum_from acc (x :: l)) = Some (acc + sumZ (x :: l)).
Proof.
  revert acc x; induction l as [|y l IH]; intros acc x.
  - simpl. f_equal. lia.
  - change (np.cumsum_from acc (x :: y :: l))
      with ((acc + x) :: np.cumsum_from (acc + x) (y :: l)).
    rewrite last_cons, IH. simpl. f_equal. unfold sumZ; simpl. lia.
Qed.

Lemma getitem_last {A} (l : list A) :
  py.getitem l (-1) = match last l with Some x => Ok x | None => Raise IndexError end.
Proof.
  unfold py.getitem. rewrite last_lookup.
  destruct l as [|x l]; [reflexivity |].
  change (-1 <? 0) with true. cbv iota.
  assert (Hn : -1 + Z.of_nat (length (x :: l)) = Z.of_nat (length l)) by (simpl length; lia).
  rewrite Hn, Nat2Z.id.
  destruct (Z.ltb_spec (Z.of_nat (length l)) 0); [lia |].
  destruct (Z.leb_spec (Z.of_nat (length (x :: l))) (Z.of_nat (length l)));
    [simpl length in *; lia |].
  reflexivity.
Qed.

Lemma integers_length g high n : length (fst (np.integers g high n)) = n.
Proof. unfold np.integers; simpl. by rewrite length_map, length_seq. Qed.

Lemma fancy_index_length a idx : length (np.fancy_index a idx) = length idx.
Proof. unfold np.fancy_index. by rewrite length_map. Qed.

Lemma pasos_of_length g n : length (pasos_of g n) = n.
Proof. unfold pasos_of. by rewrite fancy_index_length, integers_length. Qed.

Lemma pasos_of_steps g n : Forall is_step (pasos_of g n).
Proof.
  unfold pasos_of, np.integers, np.fancy_index. cbn [fst np.words np.drawn].
  rewrite Forall_map, Forall_map. apply Forall_forall. intros k _.
  cbv beta. set (i := (g (0 + k)%nat mod 2)%nat).
  assert (H : (i = 0 \/ i = 1)%nat).
  { pose proof (Nat.mod_upper_bound (g (0 + k)%nat) 2). lia. }
  unfold is_step, step_length. destruct H as [-> | ->]; simpl; auto.
Qed.

Lemma sumZ_steps_bound l :
  Forall is_step l -> - Z.of_nat (length l) <= sumZ l <= Z.of_nat (length l).
Proof.
  induction 1 as [|s l Hs _ IH]; unfold sumZ in *; simpl; [lia |].
  destruct Hs; subst; lia.
Qed.

Lemma sumZ_steps_parity l :
  Forall is_step l -> Z.even (sumZ l) = Z.even (Z.of_nat (length l)).
Proof.
  induction 1 as [|s l Hs _ IH]; [reflexivity |].
  change (sumZ (s :: l)) with (s + sumZ l).
  replace (Z.of_nat (length (s :: l))) with (Z.succ (Z.of_nat (length l)))
    by (simpl length; lia).
  rewrite Z.even_succ, <- Z.negb_even, <- IH, Z.even_add.
  destruct Hs; subst; simpl; by destruct (Z.even (sumZ l)).
Qed.

(** ** What [marcha] computes *)

Lemma marcha_spec (n_pasos : Z) (w : World) :
  1 <= n_pasos ->
  marcha n_pasos w
  = (Ok (final_of (os_entropy w (rng_created w)) (Z.to_nat n_pasos)), seeded w).
Proof.
  intros Hn. unfold marcha, mbind, M_bind, np.default_rng, np.choice.
  destruct (Z.ltb_spec n_pasos 0); [lia |].
  destruct (Z.eqb_spec n_pasos 0); [lia |].
  cbn [length Nat.eqb andb]. unfold np.integers, lift. cbv beta iota.
  rewrite getitem_last. unfold final_of, pasos_of, seeded.
  set (p := np.fancy_index _ _).
  assert (Hl : length p = Z.to_nat n_pasos).
  { subst p. by rewrite fancy_index_length, length_map, length_seq. }
  destruct p as [|x p]; [simpl in Hl; lia |].
  unfold np.cumsum. rewrite cumsum_from_last. reflexivity.
Qed.

Lemma marcha_zero (w : World) : marcha 0 w = (Raise IndexError, seeded w).
Proof. reflexivity. Qed.

Lemma marcha_negative (n_pasos : Z) (w : World) :
  n_pasos < 0 -> marcha n_pasos w = (Raise ValueError, seeded w).
Proof.
  intros Hn. unfold marcha, mbind, M_bind, np.default_rng, np.choice.
  destruct (Z.ltb_spec n_pasos 0); [reflexivity | lia].
Qed.

(** ** The sample space of the draws *)

Lemma index_draws_2_S n :
  index_draws 2 (S n)
  = map (cons 0%nat) (index_draws 2 n) ++ map (cons 1%nat) (index_draws 2 n).
Proof. simpl. by rewrite app_nil_r. Qed.

Lemma index_draws_2_length n : length (index_draws 2 n) = (2 ^ n)%nat.
Proof.
  induction n as [|n IH]; [reflexivity |].
  rewrite index_draws_2_S, length_app, !length_map, IH. simpl. lia.
Qed.

Lemma mod2_seq_in_draws (f : nat -> nat) (a n : nat) :
  map (fun k => (f k mod 2)%nat) (seq a n) ∈ index_draws 2 n.
Proof.
  revert a. induction n as [|n IH]; intros a.
  - simpl. by apply list_elem_of_singleton.
  - rewrite index_draws_2_S. cbn [seq map]. apply elem_of_app.
    pose proof (Nat.mod_upper_bound (f a) 2) as Hb.
    destruct (f a mod 2)%nat as [|[|k]] eqn:E; [| | lia].
    + left. apply (list_elem_of_fmap_2 (cons 0%nat)), IH.
    + right. apply (list_elem_of_fmap_2 (cons 1%nat)), IH.
Qed.

Lemma integers_in_draws g n : fst (np.integers g 2 n) ∈ index_draws 2 n.
Proof.
  unfold np.integers. cbn [fst].
  apply (mod2_seq_in_draws (fun k => np.words g (np.drawn g + k))).
Qed.

(** Every index array of the sample space is what some generator yields. *)
Lemma draws_realised n idx :
  idx ∈ index_draws 2 n ->
  fst (np.integers (np.mkGenerator (fun k => nth k idx 0%nat) 0) 2 n) = idx.
Proof.
  unfold np.integers. cbn [fst np.words np.drawn].
  revert idx. induction n as [|n IH]; intros idx Hin.
  - simpl in Hin. apply list_elem_of_singleton in Hin. by subst.
  - rewrite index_draws_2_S in Hin. apply elem_of_app in Hin.
    assert (Hc : exists i idx', (i = 0 \/ i = 1)%nat /\ idx = i :: idx'
                                /\ idx' ∈ index_draws 2 n).
    { destruct Hin as [Hin | Hin]; apply list_elem_of_fmap in Hin;
        destruct Hin as (idx' & -> & Hin); eauto 10. }
    destruct Hc as (i & idx' & Hi & -> & Hin').
    cbn [seq map]. f_equal.
    + simpl. destruct Hi; subst; reflexivity.
    + rewrite <- List.seq_shift, List.map_map.
      etransitivity; [| exact (IH idx' Hin')].
      apply List.map_ext. intros k. reflexivity.
Qed.

Lemma filter_cons_draws (a : list Z) (i : nat) (x : Z) (s : list Z) (D : list (list nat)) :
  length (filter (fun idx => np.fancy_index a idx = x :: s) (map (cons i) D))
  = if decide (nth i a 0 = x)
    then length (filter (fun idx => np.fancy_index a idx = s) D)
    else 0%nat.
Proof.
  induction D as [|d D IH]; [by destruct (decide _) |].
  cbn [map]. rewrite !filter_cons. cbn [np.fancy_index map].
  destruct (decide (nth i a 0 = x)) as [Hx | Hx].
  - destruct (decide (np.fancy_index a d = s)) as [Hs | Hs].
    + rewrite decide_True by (unfold np.fancy_index in Hs; congruence).
      simpl. by rewrite IH.
    + rewrite decide_False by (unfold np.fancy_index in Hs; congruence). done.
  - rewrite decide_False by congruence. done.
Qed.

Lemma filter_nil_draws (a : list Z) (i : nat) (D : list (list nat)) :
  length (filter (fun idx => np.fancy_index a idx = []) (map (cons i) D)) = 0%nat.
Proof.
  induction D as [|d D IH]; [done |].
  cbn [map]. rewrite filter_cons_False by done. exact IH.
Qed.

(** Each sequence of [n] steps comes from exactly one of the [2 ^ n]
    index arrays. *)
Lemma draws_yielding_one (s : list Z) :
  Forall is_step s -> draws_yielding s (length s) = 1%nat.
Proof.
  unfold draws_yielding. induction 1 as [|x s Hx _ IH]; [reflexivity |].
  cbn [length]. rewrite index_draws_2_S, filter_app, length_app.
  rewrite !filter_cons_draws, IH.
  destruct Hx; subst; reflexivity.
Qed.

Lemma filter_head_draws (a : list Z) (b : nat) (v : Z) (D : list (list nat)) :
  length (filter (fun idx => np.fancy_index a idx !! 0%nat = Some v) (map (cons b) D))
  = if decide (nth b a 0 = v) then length D else 0%nat.
Proof.
  induction D as [|d D IH]; [by destruct (decide _) |].
  cbn [map]. rewrite filter_cons. cbn [np.fancy_index map lookup list_lookup].
  destruct (decide (nth b a 0 = v)) as [Hv | Hv].
  - rewrite decide_True by congruence. cbn [length]. by rewrite IH.
  - rewrite decide_False by congruence. exact IH.
Qed.

Lemma filter_tail_draws (a : list Z) (b i : nat) (v : Z) (D : list (list nat)) :
  length (filter (fun idx => np.fancy_index a idx !! S i = Some v) (map (cons b) D))
  = length (filter (fun idx => np.fancy_index a idx !! i = Some v) D).
Proof.
  induction D as [|d D IH]; [done |].
  cbn [map]. rewrite !filter_cons. cbn [np.fancy_index map lookup list_lookup].
  fold (np.fancy_index a d).
  destruct (decide (np.fancy_index a d !! i = Some v)); cbn [length]; by rewrite IH.
Qed.

(** Each step takes each of its two values in half of the index arrays. *)
Lemma draws_with_step_half (i n : nat) (v : Z) :
  (i < n)%nat -> is_step v -> draws_with_step i v n = (2 ^ (n - 1))%nat.
Proof.
  unfold draws_with_step. revert i. induction n as [|n IH]; intros i Hi Hv; [lia |].
  rewrite index_draws_2_S, filter_app, length_app.
  destruct i as [|i].
  - rewrite !filter_head_draws, index_draws_2_length.
    replace (S n - 1)%nat with n by lia.
    destruct Hv; subst; cbn [nth]; unfold step_length;
      repeat case_decide; lia.
  - rewrite !filter_tail_draws, IH by (done || lia).
    replace (S n - 1)%nat with (S (n - 1)) by lia.
    rewrite Nat.pow_succ_r'. lia.
Qed.

(** ** Properties of [marcha] *)

(** C1: for every [n_pasos >= 1], [marcha n_pasos] draws [n_pasos] steps
    from {-1, +1} (step length 1) and returns only the last cumulative
    sum, the sum of the steps.  The steps are uniform and independent
    given numpy's uniform index draws: the index array is one of the
    [2 ^ n_pasos] arrays of the sample space, each of them is yielded by
    some generator, every sequence of [n_pasos] steps comes from exactly
    one of them, and each step takes each of its two values in half of
    them. *)
Theorem marcha_draws_steps_returns_final_sum (n_pasos : Z) (w : World) :
  1 <= n_pasos ->
  let n := Z.to_nat n_pasos in
  let idx := fst (np.integers (np.mkGenerator (os_entropy w (rng_created w)) 0) 2 n) in
  let pasos := np.fancy_index [- step_length; step_length] idx in
  step_length = 1 /\
  Z.of_nat (length pasos) = n_pasos /\
  Forall is_step pasos /\
  py.getitem (np.cumsum pasos) (-1) = Ok (sumZ pasos) /\
  marcha n_pasos w = (Ok (sumZ pasos), seeded w) /\
  idx ∈ index_draws 2 n /\
  length (index_draws 2 n) = (2 ^ n)%nat /\
  (forall i, i ∈ index_draws 2 n ->
             exists g, fst (np.integers (np.mkGenerator g 0) 2 n) = i) /\
  (forall s, length s = n -> Forall is_step s -> draws_yielding s n = 1%nat) /\
  (forall i v, (i < n)%nat -> is_step v -> draws_with_step i v n = (2 ^ (n - 1))%nat).
Proof.
  intros Hn n idx pasos.
  assert (Hlen : length pasos = n) by apply pasos_of_length.
  assert (Hsteps : Forall is_step pasos) by apply pasos_of_steps.
  repeat split.
  - lia.
  - exact Hsteps.
  - rewrite getitem_last. destruct pasos as [|x p]; [simpl in Hlen; lia |].
    unfold np.cumsum. by rewrite cumsum_from_last.
  - by rewrite marcha_spec.
  - apply integers_in_draws.
  - apply index_draws_2_length.
  - intros i Hi. eexists. by apply draws_realised.
  - intros s <- Hs. by apply draws_yielding_one.
  - intros i v Hi Hv. by apply draws_with_step_half.
Qed.

Lemma marcha_draws_steps_witness :
  1 <= 3 /\ marcha 3 w_ex = (Ok (-1), seeded w_ex) /\ draws_yielding [1; -1; -1] 3 = 1%nat.
Proof.
  split; [lia |].
  destruct (marcha_draws_steps_returns_final_sum 3 w_ex ltac:(lia))
    as (_ & _ & _ & _ & Hm & _ & _ & _ & Hu & _).
  split; [exact Hm |].
  apply Hu; [reflexivity |].
  repeat constructor; unfold is_step; lia.
Defined.

(** C2: for every [N >= 1] and every draw (every world), [marcha N]
    returns an integer in [[-N, N]] with the parity of [N]; for [N = 100]
    an even integer in [[-100, 100]], for [N = 1] exactly [-1] or [1]. *)
Theorem marcha_range_and_parity (N : Z) (w : World) :
  1 <= N ->
  exists x : Z,
    fst (marcha N w) = Ok x /\
    - N <= x <= N /\
    Z.even x = Z.even N /\
    (N = 100 -> Z.even x = true /\ -100 <= x <= 100) /\
    (N = 1 -> x = -1 \/ x = 1).
Proof.
  intros HN. rewrite marcha_spec by done. eexists; split; [reflexivity |].
  set (g := os_entropy w (rng_created w)).
  pose proof (sumZ_steps_bound _ (pasos_of_steps g (Z.to_nat N))) as Hb.
  pose proof (sumZ_steps_parity _ (pasos_of_steps g (Z.to_nat N))) as Hp.
  rewrite pasos_of_length, Z2Nat.id in Hb, Hp by lia.
  fold (final_of g (Z.to_nat N)) in Hb, Hp.
  split; [lia |]. split; [exact Hp |]. split.
  - intros ->. split; [by rewrite Hp | lia].
  - intros ->. change (Z.even 1) with false in Hp.
    assert (final_of g (Z.to_nat 1) <> 0) by (intros E; by rewrite E in Hp).
    lia.
Qed.

Lemma marcha_range_and_parity_witness :
  1 <= 100 /\
  exists x : Z, fst (marcha 100 w_ex) = Ok x /\ Z.even x = true /\ -100 <= x <= 100.
Proof.
  split; [lia |].
  destruct (marcha_range_and_parity 100 w_ex ltac:(lia)) as (x & Hx & _ & _ & H100 & _).
  exists x. split; [exact Hx |]. apply H100. reflexivity.
Defined.

(** C9: for [n_pasos = 0], [marcha] fails: no step is drawn, the array of
    cumulative sums is empty, and taking its last element raises
    [IndexError]. *)
Theorem marcha_zero_raises_index_error (w : World) :
  let random := np.mkGenerator (os_entropy w (rng_created w)) 0 in
  fst (np.choice random [- step_length; step_length] 0) = Ok [] /\
  np.cumsum [] = [] /\
  py.getitem (np.cumsum []) (-1) = Raise IndexError /\
  marcha 0 w = (Raise IndexError, seeded w).
Proof. repeat split. Qed.

(** ** [pos_finales] *)

Lemma seeded_advance k w : advance k (seeded w) = advance (S k) w.
Proof. unfold advance, seeded; simpl. f_equal. lia. Qed.

Lemma advance_seeded k w : seeded (advance k w) = advance (S k) w.
Proof. unfold advance, seeded; simpl. f_equal. lia. Qed.

Lemma advance_0 w : advance 0 w = w.
Proof. destruct w. unfold advance; simpl. f_equal. lia. Qed.

Lemma advance_advance j k w : advance k (advance j w) = advance (j + k) w.
Proof. unfold advance; simpl. f_equal. lia. Qed.

Lemma trial_seeded w n i : trial (seeded w) n i = trial w n (S i).
Proof. unfold trial, seeded; simpl. do 3 f_equal. lia. Qed.

Lemma trial_advance w n j i : trial (advance j w) n i = trial w n (j + i).
Proof. unfold trial, advance; simpl. do 3 f_equal. lia. Qed.

Lemma trials_length w n runs : length (trials w n runs) = runs.
Proof. unfold trials. by rewrite length_map, length_seq. Qed.

Lemma trials_lookup w n runs i :
  (i < runs)%nat -> trials w n runs !! i = Some (trial w n i).
Proof.
  intros Hi. unfold trials.
  change (map (trial w n) (seq 0 runs)) with (trial w n <$> seq 0 runs).
  rewrite list_lookup_fmap, lookup_seq_lt by done. reflexivity.
Qed.

Lemma trials_S w n runs :
  trials w n (S runs) = trial w n 0 :: trials (seeded w) n runs.
Proof.
  unfold trials. cbn [seq map]. f_equal.
  rewrite <- List.seq_shift, List.map_map. apply List.map_ext.
  intros i. by rewrite trial_seeded.
Qed.

Lemma setitem_in_range {A} (l : list A) (i : nat) (x : A) :
  (i < length l)%nat -> py.setitem l (Z.of_nat i) x = Ok (<[i := x]> l).
Proof.
  intros Hi. unfold py.setitem. cbv zeta.
  rewrite !(proj2 (Z.ltb_ge (Z.of_nat i) 0)) by lia.
  rewrite (proj2 (Z.leb_gt _ _)) by lia.
  simpl. by rewrite Nat2Z.id.
Qed.

(** The loop of [pos_finales] from index [a] on: the entries below [a]
    stay, the [k] entries from [a] on receive the next [k] trials. *)
Lemma pos_finales_loop (n_pasos : Z) (k a : nat) (finales : list Q) (w : World) :
  1 <= n_pasos ->
  length finales = (a + k)%nat ->
  for_each (map Z.of_nat (seq a k))
    (fun i finales =>
       x ← marcha n_pasos;
       lift (py.setitem finales i (inject_Z x)))
    finales w
  = (Ok (take a finales ++ trials w (Z.to_nat n_pasos) k), advance k w).
Proof.
  intros Hn. revert a finales w.
  induction k as [|k IH]; intros a finales w Hlen.
  - cbn [seq map for_each]. unfold mret, M_ret, trials. cbn [seq map].
    rewrite app_nil_r, advance_0, take_ge by lia. reflexivity.
  - cbn [seq map for_each]. unfold mbind at 1, M_bind at 1.
    unfold mbind at 1, M_bind at 1. rewrite marcha_spec by done.
    unfold lift at 1. rewrite setitem_in_range by lia.
    rewrite IH by (rewrite length_insert; lia).
    rewrite seeded_advance, trials_S. f_equal. f_equal.
    rewrite (take_S_r _ _ (inject_Z (final_of (os_entropy w (rng_created w))
                                               (Z.to_nat n_pasos)))).
    + rewrite take_insert_ge by lia. rewrite <- app_assoc. cbn [app].
      do 3 f_equal. unfold trial. do 3 f_equal. lia.
    + apply list_lookup_insert_eq. lia.
Qed.

Lemma pos_finales_spec (n_pasos runs : Z) (w : World) :
  1 <= n_pasos -> 0 <= runs ->
  pos_finales n_pasos runs w
  = (Ok (trials w (Z.to_nat n_pasos) (Z.to_nat runs)), advance (Z.to_nat runs) w).
Proof.
  intros Hn Hr. unfold pos_finales, np.empty, py.range.
  destruct (Z.ltb_spec runs 0); [lia |].
  unfold mbind at 1, M_bind at 1, lift at 1.
  rewrite pos_finales_loop by (done || by rewrite length_replicate).
  by rewrite take_0.
Qed.

Lemma pos_finales_no_runs (n_pasos : Z) (w : World) :
  pos_finales n_pasos 0 w = (Ok [], w).
Proof. reflexivity. Qed.

Lemma pos_finales_negative_runs (n_pasos runs : Z) (w : World) :
  runs < 0 -> pos_finales n_pasos runs w = (Raise ValueError, w).
Proof.
  intros Hr. unfold pos_finales, np.empty.
  destruct (Z.ltb_spec runs 0); [reflexivity | lia].
Qed.

(** C5: for [n_pasos >= 1] and [runs >= 0], [pos_finales n_pasos runs]
    returns an array of exactly [runs] entries; entry [i] is the final
    position of the [i]-th walk of [n_pasos] steps, the value [marcha]
    returns in the world where [i] generators were seeded before, and
    that walk draws from a generator of its own (seed number
    [rng_created w + i]). *)
Theorem pos_finales_returns_runs_trials (n_pasos runs : Z) (w : World) :
  1 <= n_pasos -> 0 <= runs ->
  exists finales : list Q,
    pos_finales n_pasos runs w = (Ok finales, advance (Z.to_nat runs) w) /\
    Z.of_nat (length finales) = runs /\
    forall i : nat, (i < Z.to_nat runs)%nat ->
      exists x : Z,
        finales !! i = Some (inject_Z x) /\
        marcha n_pasos (advance i w) = (Ok x, advance (S i) w) /\
        x = final_of (os_entropy w (rng_created w + i)) (Z.to_nat n_pasos).
Proof.
  intros Hn Hr. eexists. split; [by apply pos_finales_spec |].
  split; [rewrite trials_length; lia |].
  intros i Hi. eexists. split; [by apply trials_lookup |].
  split; [| reflexivity].
  rewrite marcha_spec, advance_seeded by done. reflexivity.
Qed.

Lemma pos_finales_returns_runs_trials_witness :
  1 <= 3 /\ 0 <= 4 /\
  exists finales : list Q,
    pos_finales 3 4 w_ex = (Ok finales, advance (Z.to_nat 4) w_ex) /\
    Z.of_nat (length finales) = 4 /\
    forall i : nat, (i < Z.to_nat 4)%nat ->
      exists x : Z,
        finales !! i = Some (inject_Z x) /\
        marcha 3 (advance i w_ex) = (Ok x, advance (S i) w_ex) /\
        x = final_of (os_entropy w_ex (rng_created w_ex + i)) (Z.to_nat 3).
Proof.
  split; [lia |]. split; [lia |].
  apply (pos_finales_returns_runs_trials 3 4 w_ex); lia.
Defined.

(** ** The monad, step by step *)

Lemma bind_lift_ok {A B} (a : A) (k : A -> M B) (w : World) :
  (lift (Ok a) ≫= k) w = k a w.
Proof. reflexivity. Qed.

Lemma bind_lift_raise {A B} (e : exn) (k : A -> M B) (w : World) :
  (lift (Raise e) ≫= k) w = (Raise e, w).
Proof. reflexivity. Qed.

Lemma bind_draw {B} (c : plt_cmd) (k : unit -> M B) (w : World) :
  (draw c ≫= k) w = k tt (drawn_on w [c]).
Proof. reflexivity. Qed.

(** The calls of [plt] are [draw]s. *)
Ltac unfold_plt :=
  unfold plt.figure, plt.plot_curve, plt.scatter, plt.plot, plt.title_hist,
    plt.title, plt.xlabel, plt.ylabel, plt.legend, plt.show.

Lemma draw_run (c : plt_cmd) (w : World) : draw c w = (Ok tt, drawn_on w [c]).
Proof. reflexivity. Qed.

Lemma print_run (o : out) (w : World) : print o w = (Ok tt, written_on w [o]).
Proof. reflexivity. Qed.

Lemma bind_print {B} (o : out) (k : unit -> M B) (w : World) :
  (print o ≫= k) w = k tt (written_on w [o]).
Proof. reflexivity. Qed.

Lemma bind_ok {A B} (m : M A) (k : A -> M B) (w w' : World) (a : A) :
  m w = (Ok a, w') -> (m ≫= k) w = k a w'.
Proof. intros H. unfold mbind, M_bind. by rewrite H. Qed.

Lemma bind_raise {A B} (m : M A) (k : A -> M B) (w w' : World) (e : exn) :
  m w = (Raise e, w') -> (m ≫= k) w = (Raise e, w').
Proof. intros H. unfold mbind, M_bind. by rewrite H. Qed.

Lemma drawn_on_drawn_on w c1 c2 : drawn_on (drawn_on w c1) c2 = drawn_on w (c1 ++ c2).
Proof. unfold drawn_on; simpl. by rewrite app_assoc. Qed.

Lemma written_on_written_on w o1 o2 :
  written_on (written_on w o1) o2 = written_on w (o1 ++ o2).
Proof. unfold written_on; simpl. by rewrite app_assoc. Qed.

(** Rewriting worlds to a normal form. *)
Create Rewrite HintDb world.
#[local] Hint Rewrite drawn_on_drawn_on written_on_written_on : world.

(** ** Minimum and maximum *)

Lemma foldl_min_spec (l : list Q) (m0 : Q) :
  let m := foldl (fun m y => if Qlt_le_dec y m then y else m) m0 l in
  (m <= m0)%Q /\ Forall (fun v => m <= v)%Q l /\ (m = m0 \/ In m l).
Proof.
  cbv zeta. revert m0. induction l as [|y l IH]; intros m0; cbn [foldl].
  - split; [apply Qle_refl |]. split; [constructor | by left].
  - destruct (Qlt_le_dec y m0) as [Hlt | Hle].
    + destruct (IH y) as (H1 & H2 & H3).
      split; [eapply Qle_trans; [exact H1 | by apply Qlt_le_weak] |].
      split; [by constructor |]. right. destruct H3 as [-> | H3]; [by left | by right].
    + destruct (IH m0) as (H1 & H2 & H3). split; [done |].
      split; [constructor; [eapply Qle_trans; [exact H1 | exact Hle] | done] |].
      destruct H3 as [H3 | H3]; [by left | right; by right].
Qed.

Lemma foldl_max_spec (l : list Q) (m0 : Q) :
  let m := foldl (fun m y => if Qlt_le_dec m y then y else m) m0 l in
  (m0 <= m)%Q /\ Forall (fun v => v <= m)%Q l /\ (m = m0 \/ In m l).
Proof.
  cbv zeta. revert m0. induction l as [|y l IH]; intros m0; cbn [foldl].
  - split; [apply Qle_refl |]. split; [constructor | by left].
  - destruct (Qlt_le_dec m0 y) as [Hlt | Hle].
    + destruct (IH y) as (H1 & H2 & H3).
      split; [eapply Qle_trans; [by apply Qlt_le_weak | exact H1] |].
      split; [by constructor |]. right. destruct H3 as [-> | H3]; [by left | by right].
    + destruct (IH m0) as (H1 & H2 & H3). split; [done |].
      split; [constructor; [eapply Qle_trans; [exact Hle | exact H1] | done] |].
      destruct H3 as [H3 | H3]; [by left | right; by right].
Qed.

Lemma py_min_spec (l : list Q) :
  l <> [] ->
  exists lo, py.min l = Ok lo /\ Forall (fun v => lo <= v)%Q l /\ In lo l.
Proof.
  destruct l as [|x l]; [done |]. intros _. eexists. split; [reflexivity |].
  destruct (foldl_min_spec l x) as (H1 & H2 & H3).
  split; [by constructor |]. destruct H3 as [-> | H3]; [by left | by right].
Qed.

Lemma py_max_spec (l : list Q) :
  l <> [] ->
  exists hi, py.max l = Ok hi /\ Forall (fun v => v <= hi)%Q l /\ In hi l.
Proof.
  destruct l as [|x l]; [done |]. intros _. eexists. split; [reflexivity |].
  destruct (foldl_max_spec l x) as (H1 & H2 & H3).
  split; [by constructor |]. destruct H3 as [-> | H3]; [by left | by right].
Qed.

(** ** [histograma] *)

Lemma math_sqrt_ok (x : R) : (0 <= x)%R -> math.sqrt x = Ok (sqrt x).
Proof. intros Hx. unfold math.sqrt. destruct (Rlt_dec x 0); [lra | reflexivity]. Qed.

Lemma math_sqrt_negative (x : R) : (x < 0)%R -> math.sqrt x = Raise ValueError.
Proof. intros Hx. unfold math.sqrt. destruct (Rlt_dec x 0); [reflexivity | lra]. Qed.

Lemma float_div_ok (x y : R) : y <> 0%R -> py.float_div x y = Ok (x / y)%R.
Proof. intros Hy. unfold py.float_div. destruct (Req_dec_T y 0); [done | reflexivity]. Qed.

Lemma sigma_pos (n_pasos : Z) :
  1 <= n_pasos -> (0 < sqrt (IZR n_pasos) * IZR step_length)%R.
Proof.
  intros Hn. unfold step_length. rewrite Rmult_1_r.
  apply sqrt_lt_R0. apply (IZR_lt 0). lia.
Qed.

Lemma sqrt_2PI_pos : (0 < sqrt (2 * PI))%R.
Proof. apply sqrt_lt_R0. pose proof PI_RGT_0. lra. Qed.

(** The curve as the code computes it is the normal density. *)
Lemma TCL_is_normal_pdf (sigma x : R) :
  (0 < sigma)%R ->
  (1 / (sqrt (2 * PI) * sigma) * exp (- (1 / 2) * (x / sigma) ^ 2))%R
  = normal_pdf sigma x.
Proof.
  intros Hs. unfold normal_pdf. do 2 f_equal. field. lra.
Qed.

Lemma plt_hist_ok (x : list Q) (bins : Z) (density : bool) (alpha : Q) (label : string) :
  0 < bins ->
  plt.hist x bins density alpha label = draw (PltHist x bins density alpha label).
Proof. intros Hb. unfold plt.hist. by destruct (Z.leb_spec bins 0); [lia |]. Qed.

Lemma histograma_spec (posi_finales : list Q) (n_pasos bins : Z) (w : World) (lo hi : Q) :
  1 <= n_pasos -> 0 < bins ->
  py.min posi_finales = Ok lo -> py.max posi_finales = Ok hi ->
  histograma posi_finales n_pasos bins w
  = (Ok tt,
     drawn_on w
       [PltFigure;
        PltHist posi_finales bins true (6 # 10) "Programa";
        PltPlotR (map Q2R (np.linspace lo hi 500))
                 (map (fun xi => normal_pdf (sqrt (IZR n_pasos)) (Q2R xi))
                      (np.linspace lo hi 500))
                 "TCL";
        PltTitleHist n_pasos (length posi_finales);
        PltXlabel "Posición final x";
        PltYlabel "Densidad de probabilidad";
        PltLegend;
        PltShow]).
Proof.
  intros Hn Hb Hlo Hhi. unfold histograma, math.pi. unfold_plt.
  pose proof (sigma_pos n_pasos Hn) as Hs.
  rewrite math_sqrt_ok by (apply (IZR_le 0); lia).
  rewrite bind_lift_ok, bind_draw, plt_hist_ok, bind_draw by done.
  rewrite Hlo, bind_lift_ok, Hhi, bind_lift_ok.
  rewrite float_div_ok by (pose proof sqrt_2PI_pos; nra).
  rewrite bind_lift_ok. rewrite !bind_draw.
  rewrite draw_run, !drawn_on_drawn_on. cbn [app].
  match goal with
  | |- context [PltPlotR _ (map ?f ?l) _] =>
      rewrite (List.map_ext f (fun xi => normal_pdf (sqrt (IZR n_pasos)) (Q2R xi)))
  end; [reflexivity |].
  intros xi. rewrite TCL_is_normal_pdf by done.
  f_equal. unfold step_length. lra.
Qed.

Lemma histograma_empty (n_pasos bins : Z) (w : World) :
  fst (histograma [] n_pasos bins w) = Raise ValueError.
Proof.
  unfold histograma. unfold_plt.
  destruct (Z.ltb_spec n_pasos 0) as [Hn | Hn].
  - rewrite math_sqrt_negative by (apply (IZR_lt _ 0); lia). reflexivity.
  - rewrite math_sqrt_ok by (apply (IZR_le 0); lia).
    rewrite bind_lift_ok, bind_draw. unfold plt.hist.
    destruct (Z.leb_spec bins 0); [reflexivity |].
    rewrite bind_draw. reflexivity.
Qed.

(** With data and a positive number of bins the failure is the one of
    [min]: the figure and the empty histogram were already drawn. *)
Lemma histograma_empty_at_min (n_pasos bins : Z) (w : World) :
  0 <= n_pasos -> 0 < bins ->
  histograma [] n_pasos bins w
  = (Raise ValueError, drawn_on w [PltFigure; PltHist [] bins true (6 # 10) "Programa"]).
Proof.
  intros Hn Hb. unfold histograma. unfold_plt.
  rewrite math_sqrt_ok by (apply (IZR_le 0); lia).
  rewrite bind_lift_ok, bind_draw, plt_hist_ok, bind_draw by done.
  cbn [py.min]. rewrite bind_lift_raise, drawn_on_drawn_on. reflexivity.
Qed.

(** ** [linspace] *)

Lemma linspace_length start stop num : length (np.linspace start stop num) = num.
Proof. unfold np.linspace. by rewrite length_map, length_seq. Qed.

Lemma linspace_lookup start stop num k :
  (k < num)%nat ->
  np.linspace start stop num !! k
  = Some (start + inject_Z (Z.of_nat k)
                  * ((stop - start) / inject_Z (Z.of_nat (num - 1))))%Q.
Proof.
  intros Hk. unfold np.linspace.
  match goal with |- map ?f ?l !! _ = _ => change (map f l) with (f <$> l) end.
  rewrite list_lookup_fmap, lookup_seq_lt by done. reflexivity.
Qed.

Lemma linspace_500_between (lo hi : Q) :
  (lo <= hi)%Q -> Forall (fun xi => lo <= xi <= hi)%Q (np.linspace lo hi 500).
Proof.
  intros Hle. unfold np.linspace. rewrite Forall_map. apply Forall_forall.
  intros k Hk. apply elem_of_seq in Hk. cbv beta.
  change (inject_Z (Z.of_nat (500 - 1))) with (499 # 1)%Q.
  assert (Hstep : (0 <= (hi - lo) / (499 # 1))%Q).
  { apply Qle_shift_div_l; [reflexivity | lra]. }
  assert (H499 : ((499 # 1) * ((hi - lo) / (499 # 1)) == hi - lo)%Q) by field.
  generalize dependent ((hi - lo) / (499 # 1))%Q. intros step Hstep H499.
  assert (Hk0 : (0 <= inject_Z (Z.of_nat k))%Q).
  { change 0%Q with (inject_Z 0). rewrite <- Zle_Qle. lia. }
  assert (Hk1 : (inject_Z (Z.of_nat k) <= 499 # 1)%Q).
  { change (499 # 1)%Q with (inject_Z 499). rewrite <- Zle_Qle. lia. }
  nra.
Qed.

(** ** The area of the normalised histogram *)

Lemma indicator_sum (j a n : nat) :
  sum_list (map (fun k => if (j =? k)%nat then 1%nat else 0%nat) (seq a n))
  = if decide (a <= j < a + n)%nat then 1%nat else 0%nat.
Proof.
  revert a. induction n as [|n IH]; intros a.
  - simpl. destruct (decide _); [lia | done].
  - cbn [seq map sum_list sum_list_with id]. fold (sum_list (map (fun k => if (j =? k)%nat then 1%nat else 0%nat) (seq (S a) n))). rewrite IH.
    destruct (Nat.eqb_spec j a); repeat case_decide; unfold Datatypes.id; lia.
Qed.

Lemma sum_list_map_add {A} (g h : A -> nat) (l : list A) :
  sum_list (map (fun k => g k + h k)%nat l)
  = (sum_list (map g l) + sum_list (map h l))%nat.
Proof. induction l as [|k l IH]; simpl in *; lia. Qed.

(** Every datum falls in one bin, so the counts add up to the number of
    data. *)
Lemma counts_partition (f : Q -> nat) (bins : nat) (x : list Q) :
  Forall (fun v => f v < bins)%nat x ->
  sum_list (map (fun k => length (List.filter (fun v => (f v =? k)%nat) x)) (seq 0 bins))
  = length x.
Proof.
  induction 1 as [|v x Hv _ IH].
  - simpl. induction (seq 0 bins) as [|k l IHl]; [done | simpl in *; lia].
  - cbn [List.filter length].
    erewrite List.map_ext.
    2:{ intros k.
        instantiate (1 := fun k => ((if (f v =? k)%nat then 1 else 0)
                                    + length (List.filter (fun v0 => (f v0 =? k)%nat) x))%nat).
        cbv beta. by destruct (f v =? k)%nat. }
    rewrite sum_list_map_add, indicator_sum, IH.
    rewrite decide_True by lia. reflexivity.
Qed.

Lemma inject_nat_add (a b : nat) :
  (inject_Z (Z.of_nat (a + b)) == inject_Z (Z.of_nat a) + inject_Z (Z.of_nat b))%Q.
Proof. by rewrite Nat2Z.inj_add, inject_Z_plus. Qed.

Lemma density_area (c : nat -> nat) (bw n : Q) (ks : list nat) :
  ~ (bw == 0)%Q -> ~ (n == 0)%Q ->
  (sumQ (map (fun dk => dk * bw)
             (map (fun k => inject_Z (Z.of_nat (c k)) / bw / n) ks))
   == inject_Z (Z.of_nat (sum_list (map c ks))) / n)%Q.
Proof.
  intros Hbw Hn. induction ks as [|k ks IH].
  - simpl. field. exact Hn.
  - cbn [map sumQ foldr sum_list sum_list_with id]. fold (sum_list (map c ks)). fold (sumQ (map (fun dk => dk * bw)%Q
        (map (fun k => inject_Z (Z.of_nat (c k)) / bw / n)%Q ks))).
    rewrite IH, inject_nat_add. unfold Datatypes.id. field. split; assumption.
Qed.

Lemma Qeq_bool_false_neq (a b : Q) : Qeq_bool a b = false -> ~ (a == b)%Q.
Proof. intros H E. apply Qeq_bool_iff in E. congruence. Qed.

(** The range of the bins: not empty, and it holds all the data. *)
Lemma hist_range_spec (x : list Q) :
  x <> [] ->
  exists lo hi, np.hist_range x = Ok (lo, hi) /\ (lo < hi)%Q
                /\ Forall (fun v => lo <= v <= hi)%Q x.
Proof.
  intros Hx.
  destruct (py_min_spec x Hx) as (lo & Hlo & Hmin & Hin).
  destruct (py_max_spec x Hx) as (hi & Hhi & Hmax & _).
  assert (Hle : (lo <= hi)%Q).
  { rewrite Forall_forall in Hmax. apply Hmax. by apply list_elem_of_In. }
  assert (Hall : Forall (fun v => lo <= v <= hi)%Q x).
  { rewrite Forall_forall in Hmin, Hmax |- *. intros v Hv. split; auto. }
  unfold np.hist_range. rewrite Hlo, Hhi.
  destruct (Qeq_bool lo hi) eqn:E.
  - eexists _, _. split; [reflexivity |]. split; [lra |].
    eapply Forall_impl; [exact Hall |]. cbv beta. intros v Hv. lra.
  - apply Qeq_bool_false_neq in E.
    eexists _, _. split; [reflexivity |]. split; [| exact Hall].
    destruct (Qlt_le_dec lo hi) as [Hlt | Hge]; [done |].
    exfalso. apply E. by apply Qle_antisym.
Qed.

Lemma bin_index_lt (lo hi : Q) (bins : nat) (v : Q) :
  (0 < bins)%nat -> (lo < hi)%Q -> (lo <= v <= hi)%Q ->
  (np.bin_index lo hi bins v < bins)%nat.
Proof.
  intros Hb Hlt Hv. unfold np.bin_index.
  destruct (Qle_bool hi v) eqn:E; [lia |].
  assert (Hvhi : (v < hi)%Q).
  { destruct (Qlt_le_dec v hi) as [H | H]; [done |].
    apply Qle_bool_iff in H. congruence. }
  assert (Hbq : (0 < inject_Z (Z.of_nat bins))%Q).
  { change 0%Q with (inject_Z 0). rewrite <- Zlt_Qlt. lia. }
  assert (Hw : (0 < np.bin_width lo hi bins)%Q).
  { unfold np.bin_width. apply Qlt_shift_div_l; [done | lra]. }
  set (q := ((v - lo) / np.bin_width lo hi bins)%Q).
  assert (Hq : (q < inject_Z (Z.of_nat bins))%Q).
  { unfold q. apply Qlt_shift_div_r; [done |].
    assert (Hmul : (inject_Z (Z.of_nat bins) * np.bin_width lo hi bins == hi - lo)%Q).
    { unfold np.bin_width. field. lra. }
    rewrite Hmul. lra. }
  pose proof (Qfloor_le q) as Hfl.
  assert (Hz : Qfloor q < Z.of_nat bins).
  { rewrite Zlt_Qlt. eapply Qle_lt_trans; [exact Hfl | exact Hq]. }
  lia.
Qed.

Lemma hist_area_one (x : list Q) (bins : nat) :
  x <> [] -> (0 < bins)%nat ->
  exists a, hist_area x bins = Ok a /\ (a == 1)%Q.
Proof.
  intros Hx Hb.
  destruct (hist_range_spec x Hx) as (lo & hi & Hr & Hlt & Hall).
  unfold hist_area, np.hist_density. rewrite Hr.
  eexists. split; [reflexivity |].
  assert (Hbq : (0 < inject_Z (Z.of_nat bins))%Q).
  { change 0%Q with (inject_Z 0). rewrite <- Zlt_Qlt. lia. }
  assert (Hw : (0 < np.bin_width lo hi bins)%Q).
  { unfold np.bin_width. apply Qlt_shift_div_l; [done | lra]. }
  assert (Hn : (0 < inject_Z (Z.of_nat (length x)))%Q).
  { change 0%Q with (inject_Z 0). rewrite <- Zlt_Qlt.
    destruct x; [done | simpl length; lia]. }
  rewrite (density_area (np.count_in lo hi bins x)) by lra.
  unfold np.count_in. rewrite counts_partition.
  - field. lra.
  - eapply Forall_impl; [exact Hall |]. cbv beta. intros v Hv.
    by apply bin_index_lt.
Qed.

(** C6: [histograma] bins the final positions with [density=True] (the
    histogram drawn has area 1 over its bin range), and the curve it
    overlays is the normal density with mean 0 and standard deviation
    [sqrt n_pasos], [1 / (sqrt (2 pi) sigma) * exp (- x^2 / (2 sigma^2))],
    evaluated at 500 points that span [[min, max]] of the data.  Floats
    are read as exact reals and rationals. *)
Theorem histograma_density_and_normal_curve
    (posi_finales : list Q) (n_pasos : Z) (w : World) :
  posi_finales <> [] -> 1 <= n_pasos ->
  exists lo hi : Q,
    py.min posi_finales = Ok lo /\ py.max posi_finales = Ok hi /\
    Forall (fun v => lo <= v <= hi)%Q posi_finales /\
    In lo posi_finales /\ In hi posi_finales /\
    let sigma := sqrt (IZR n_pasos) in
    let x := np.linspace lo hi 500 in
    histograma posi_finales n_pasos bins_default w
    = (Ok tt,
       drawn_on w
         [PltFigure;
          PltHist posi_finales 50 true (6 # 10) "Programa";
          PltPlotR (map Q2R x) (map (fun xi => normal_pdf sigma (Q2R xi)) x) "TCL";
          PltTitleHist n_pasos (length posi_finales);
          PltXlabel "Posición final x";
          PltYlabel "Densidad de probabilidad";
          PltLegend;
          PltShow]) /\
    (exists area, hist_area posi_finales 50 = Ok area /\ (area == 1)%Q) /\
    (sigma * sigma = IZR n_pasos)%R /\
    (forall xi : R,
        normal_pdf sigma xi
        = 1 / (sqrt (2 * PI) * sigma) * exp (- xi ^ 2 / (2 * sigma ^ 2)))%R /\
    length x = 500%nat /\
    (exists x0 x499, x !! 0%nat = Some x0 /\ (x0 == lo)%Q /\
                     x !! 499%nat = Some x499 /\ (x499 == hi)%Q) /\
    Forall (fun xi => lo <= xi <= hi)%Q x.
Proof.
  intros Hx Hn.
  destruct (py_min_spec _ Hx) as (lo & Hlo & Hmin & Hin).
  destruct (py_max_spec _ Hx) as (hi & Hhi & Hmax & Hin').
  assert (Hle : (lo <= hi)%Q).
  { rewrite Forall_forall in Hmax. apply Hmax. by apply list_elem_of_In. }
  exists lo, hi. split; [done |]. split; [done |].
  split.
  { rewrite Forall_forall in Hmin, Hmax |- *. intros v Hv. split; auto. }
  split; [done |]. split; [done |]. cbv zeta.
  split; [by apply histograma_spec |].
  split; [apply hist_area_one; [done | lia] |].
  split; [apply sqrt_sqrt, (IZR_le 0); lia |].
  split; [reflexivity |].
  split; [apply linspace_length |].
  split; [| by apply linspace_500_between].
  eexists _, _. rewrite !linspace_lookup by lia.
  split; [reflexivity |]. split; [| split; [reflexivity |]].
  - change (inject_Z (Z.of_nat 0)) with 0%Q. ring.
  - change (inject_Z (Z.of_nat (500 - 1))) with (499 # 1)%Q.
    change (inject_Z (Z.of_nat 499)) with (499 # 1)%Q. field.
Qed.

Lemma histograma_density_and_normal_curve_witness :
  [1; -1; 3; 1]%Q <> [] /\ 1 <= 3 /\
  fst (histograma [1; -1; 3; 1]%Q 3 bins_default w_ex) = Ok tt /\
  exists area, hist_area [1; -1; 3; 1]%Q 50 = Ok area /\ (area == 1)%Q.
Proof.
  split; [discriminate |]. split; [lia |].
  destruct (histograma_density_and_normal_curve [1; -1; 3; 1]%Q 3 w_ex
              ltac:(discriminate) ltac:(lia))
    as (lo & hi & _ & _ & _ & _ & _ & Hh & Ha & _).
  split; [by rewrite Hh | exact Ha].
Defined.

(** ** The menu loop *)

Lemma menu_print_run (w : World) : menu_print w = (Ok tt, written_on w menu_lines).
Proof.
  unfold menu_print. rewrite !bind_print, print_run.
  autorewrite with world. reflexivity.
Qed.

Lemma bind_menu_print {B} (k : unit -> M B) (w : World) :
  (menu_print ≫= k) w = k tt (written_on w menu_lines).
Proof. apply bind_ok, menu_print_run. Qed.

Lemma main_eof : main [] = (menu_print;; raise EOFError).
Proof. reflexivity. Qed.

Lemma main_2 (stdin : list string) :
  main ("2" :: stdin)
  = (menu_print;;
     print (OutText prompt_N);;
     match stdin with
     | [] => raise EOFError
     | line :: stdin =>
         N ← lift (py.int line);
         print (OutText prompt_runs);;
         match stdin with
         | [] => raise EOFError
         | line :: stdin =>
             runs ← lift (py.int line);
             finales ← pos_finales N runs;
             histograma finales N bins_default;;
             main stdin
         end
     end).
Proof. reflexivity. Qed.

Lemma main_other (opcion : string) (stdin : list string) :
  opcion <> "1" -> opcion <> "2" -> opcion <> "3" -> opcion <> "0" ->
  main (opcion :: stdin)
  = (menu_print;; print (OutText msg_no_valida);; main stdin).
Proof.
  intros H1 H2 H3 H0.
  apply String.eqb_neq in H1, H2, H3, H0.
  unfold main; cbn [main_with]; fold main. by rewrite H1, H2, H3, H0.
Qed.

Lemma py_int_raises (s : string) (e : exn) : py.int s = Raise e -> e = ValueError.
Proof.
  unfold py.int.
  match goal with |- context [let '(_, _) := ?b in _] => destruct b as [sign digits] end.
  destruct (py.digits 0 false digits); intros H; by inversion H.
Qed.

Lemma main_2_no_runs (sN : string) (rest : list string) (w : World) :
  fst (main ("2" :: sN :: "0" :: rest) w) = Raise ValueError.
Proof.
  rewrite main_2, bind_menu_print, bind_print.
  destruct (py.int sN) as [N | e] eqn:EN.
  - rewrite bind_lift_ok, bind_print.
    change (py.int "0") with (Ok 0 : result Z).
    rewrite bind_lift_ok.
    rewrite (bind_ok _ _ _ _ _ (pos_finales_no_runs N _)).
    pose proof (histograma_empty N bins_default
                  (written_on (written_on (written_on w menu_lines)
                     [OutText prompt_N]) [OutText prompt_runs])) as Hh.
    destruct (histograma [] N bins_default _) as [r w'] eqn:E.
    cbn [fst] in Hh. subst r.
    by rewrite (bind_raise _ _ _ _ _ E).
  - apply py_int_raises in EN as ->. by rewrite bind_lift_raise.
Qed.

(** C10: with [runs = 0], [pos_finales] succeeds and returns an empty
    array; [histograma] on an empty array fails, at [min] of the empty
    sequence once the figure is open, so menu option 2 with run count 0
    aborts; with data (and [n_pasos >= 1]) [histograma] succeeds. *)
Theorem histograma_fails_on_no_runs (n_pasos : Z) (w : World) :
  pos_finales n_pasos 0 w = (Ok [], w) /\
  py.min [] = Raise ValueError /\
  py.max [] = Raise ValueError /\
  (forall bins : Z, fst (histograma [] n_pasos bins w) = Raise ValueError) /\
  (0 <= n_pasos ->
   histograma [] n_pasos bins_default w
   = (Raise ValueError, drawn_on w [PltFigure; PltHist [] 50 true (6 # 10) "Programa"])) /\
  (forall (sN : string) (rest : list string),
      fst (main ("2" :: sN :: "0" :: rest) w) = Raise ValueError) /\
  (forall posi_finales : list Q,
      posi_finales <> [] -> 1 <= n_pasos ->
      fst (histograma posi_finales n_pasos bins_default w) = Ok tt).
Proof.
  split; [apply pos_finales_no_runs |].
  split; [reflexivity |]. split; [reflexivity |].
  split; [intros bins; apply histograma_empty |].
  split; [intros Hn; by apply histograma_empty_at_min |].
  split; [intros sN rest; apply main_2_no_runs |].
  intros pf Hpf Hn.
  destruct (py_min_spec _ Hpf) as (lo & Hlo & _).
  destruct (py_max_spec _ Hpf) as (hi & Hhi & _).
  by rewrite (histograma_spec pf n_pasos bins_default w lo hi).
Qed.

Lemma histograma_fails_on_no_runs_witness :
  0 <= 3 /\
  fst (pos_finales 3 0 w_ex) = Ok [] /\
  histograma [] 3 bins_default w_ex
  = (Raise ValueError, drawn_on w_ex [PltFigure; PltHist [] 50 true (6 # 10) "Programa"]) /\
  fst (main ["2"; "3"; "0"] w_ex) = Raise ValueError.
Proof.
  destruct (histograma_fails_on_no_runs 3 w_ex) as (Hp & _ & _ & _ & Hh & Hm & _).
  split; [lia |]. split; [by rewrite Hp |].
  split; [apply Hh; lia | apply Hm].
Defined.

(** The menu loop for any [int]. *)
Lemma main_with_other (int : string -> result Z) (opcion : string) (stdin : list string) :
  opcion <> "1" -> opcion <> "2" -> opcion <> "3" -> opcion <> "0" ->
  main_with int (opcion :: stdin)
  = (menu_print;; print (OutText msg_no_valida);; main_with int stdin).
Proof.
  intros H1 H2 H3 H0.
  apply String.eqb_neq in H1, H2, H3, H0.
  cbn [main_with]. by rewrite H1, H2, H3, H0.
Qed.

(** C7: the menu loop has four actions, ["1"], ["2"], ["3"] and ["0"];
    any other input writes the error message and asks again, changing
    nothing but the output; inside an action, a line that [int] rejects
    (text that is no integer, an empty list) is not caught: the
    exception of [int] ends the loop, with no message and no further
    prompt.  The loop is [main_with int], for any [int]: what is stated
    holds for whatever strings Python's [int] accepts.  The last lines
    give strings that [int] rejects. *)
Theorem main_dispatches_four_actions
    (int : string -> result Z) (rest : list string) (w : World) :
  let w1 := written_on w menu_lines in
  (forall line,
      main_with int ("1" :: line :: rest) w
      = (N ← lift (int line);
         pos_final ← marcha N;
         print (OutPosFinal pos_final);;
         main_with int rest) (written_on w1 [OutText prompt_N])) /\
  (forall line1 line2,
      main_with int ("2" :: line1 :: line2 :: rest) w
      = (N ← lift (int line1);
         print (OutText prompt_runs);;
         runs ← lift (int line2);
         finales ← pos_finales N runs;
         histograma finales N bins_default;;
         main_with int rest) (written_on w1 [OutText prompt_N])) /\
  (forall lista line,
      main_with int ("3" :: lista :: line :: rest) w
      = (N_vals ← lift (py.comprehension int (py.split "," lista));
         print (OutText prompt_runs_N);;
         runs ← lift (int line);
         '(medios, medios_x2, slope, D) ← momentos_vs_N N_vals runs;
         print (OutText "Resultados:");;
         for_each (zip N_vals (zip medios medios_x2))
           (fun '(N, (u, v)) _ => print (OutMomentos N u v)) tt;;
         print (OutPendiente slope);;
         print (OutDifusion D);;
         main_with int rest) (written_on w1 [OutText prompt_lista])) /\
  main_with int ("0" :: rest) w = (Ok tt, w1) /\
  (forall opcion,
      opcion <> "1" -> opcion <> "2" -> opcion <> "3" -> opcion <> "0" ->
      main_with int (opcion :: rest) w
      = main_with int rest (written_on w1 [OutText msg_no_valida]) /\
      main_with int [opcion; "0"] w
      = (Ok tt, written_on w (menu_lines ++ [OutText msg_no_valida] ++ menu_lines))) /\
  (forall line e,
      int line = Raise e ->
      main_with int ("1" :: line :: rest) w
      = (Raise e, written_on w1 [OutText prompt_N])) /\
  (forall line1 line2 e,
      int line1 = Raise e ->
      main_with int ("2" :: line1 :: line2 :: rest) w
      = (Raise e, written_on w1 [OutText prompt_N])) /\
  (forall line1 line2 N e,
      int line1 = Ok N -> int line2 = Raise e ->
      main_with int ("2" :: line1 :: line2 :: rest) w
      = (Raise e, written_on w1 [OutText prompt_N; OutText prompt_runs])) /\
  (forall lista line e,
      py.comprehension int (py.split "," lista) = Raise e ->
      main_with int ("3" :: lista :: line :: rest) w
      = (Raise e, written_on w1 [OutText prompt_lista])) /\
  (forall lista line N_vals e,
      py.comprehension int (py.split "," lista) = Ok N_vals ->
      int line = Raise e ->
      main_with int ("3" :: lista :: line :: rest) w
      = (Raise e, written_on w1 [OutText prompt_lista; OutText prompt_runs_N])) /\
  (forall lista piece e,
      piece ∈ py.split "," lista -> int piece = Raise e ->
      exists e', py.comprehension int (py.split "," lista) = Raise e') /\
  py.int "abc" = Raise ValueError /\
  py.int "1.5" = Raise ValueError /\
  py.int "" = Raise ValueError /\
  py.split "," "" = [""] /\
  py.split "," "100,,300" = ["100"; ""; "300"] /\
  py.comprehension py.int (py.split "," "") = Raise ValueError /\
  py.comprehension py.int (py.split "," "100,,300") = Raise ValueError.
Proof.
  cbv zeta. repeat apply conj; try reflexivity.
  - intros line. cbn [main_with String.eqb Ascii.eqb Bool.eqb].
    by rewrite bind_menu_print, bind_print.
  - intros line1 line2. cbn [main_with String.eqb Ascii.eqb Bool.eqb].
    by rewrite bind_menu_print, bind_print.
  - intros lista line. cbn [main_with String.eqb Ascii.eqb Bool.eqb].
    by rewrite bind_menu_print, bind_print.
  - cbn [main_with String.eqb Ascii.eqb Bool.eqb]. by rewrite bind_menu_print.
  - intros opcion H1 H2 H3 H0. rewrite !main_with_other by done.
    rewrite !bind_menu_print, !bind_print. split; [reflexivity |].
    cbn [main_with String.eqb Ascii.eqb Bool.eqb].
    rewrite bind_menu_print, !written_on_written_on. reflexivity.
  - intros line e E. cbn [main_with String.eqb Ascii.eqb Bool.eqb].
    by rewrite bind_menu_print, bind_print, E.
  - intros line1 line2 e E. cbn [main_with String.eqb Ascii.eqb Bool.eqb].
    by rewrite bind_menu_print, bind_print, E.
  - intros line1 line2 N e E1 E2. cbn [main_with String.eqb Ascii.eqb Bool.eqb].
    rewrite bind_menu_print, bind_print, E1, bind_lift_ok, bind_print, E2.
    by rewrite bind_lift_raise, written_on_written_on.
  - intros lista line e E. cbn [main_with String.eqb Ascii.eqb Bool.eqb].
    by rewrite bind_menu_print, bind_print, E.
  - intros lista line N_vals e E1 E2. cbn [main_with String.eqb Ascii.eqb Bool.eqb].
    rewrite bind_menu_print, bind_print, E1, bind_lift_ok, bind_print, E2.
    by rewrite bind_lift_raise, written_on_written_on.
  - intros lista piece e Hin He.
    destruct (py.comprehension int (py.split "," lista)) as [N_vals | e'] eqn:Ec;
      [| by exists e'].
    exfalso. revert N_vals Ec.
    induction (py.split "," lista) as [|p ps IH]; intros N_vals Ec.
    + by apply elem_of_nil in Hin.
    + cbn [py.comprehension] in Ec. apply elem_of_cons in Hin as [<- | Hin].
      * by rewrite He in Ec.
      * destruct (int p); [| done].
        destruct (py.comprehension int ps) as [ys |]; [| done].
        by apply (IH Hin ys).
Qed.

Lemma main_dispatches_four_actions_witness :
  "9" <> "1" /\ "9" <> "2" /\ "9" <> "3" /\ "9" <> "0" /\
  py.int "x" = Raise ValueError /\
  main_with py.int ["9"; "1"; "x"; "0"] w_ex
  = (Raise ValueError,
     written_on w_ex (menu_lines ++ [OutText msg_no_valida] ++ menu_lines
                      ++ [OutText prompt_N])).
Proof.
  repeat (split; [discriminate || reflexivity |]).
  destruct (main_dispatches_four_actions py.int ["1"; "x"; "0"] w_ex)
    as (_ & _ & _ & _ & Hother & _).
  destruct (Hother "9" ltac:(discriminate) ltac:(discriminate)
              ltac:(discriminate) ltac:(discriminate)) as [-> _].
  destruct (main_dispatches_four_actions py.int ["0"]
              (written_on (written_on w_ex menu_lines) [OutText msg_no_valida]))
    as (_ & _ & _ & _ & _ & Hbad & _).
  rewrite (Hbad "x" ValueError eq_refl), !written_on_written_on. reflexivity.
Defined.

(** ** No state shared between calls of [marcha] *)

Lemma marcha_world (n_pasos : Z) (w : World) : snd (marcha n_pasos w) = seeded w.
Proof.
  destruct (Z.lt_trichotomy n_pasos 0) as [H | [-> | H]].
  - by rewrite marcha_negative.
  - reflexivity.
  - by rewrite marcha_spec by lia.
Qed.

Lemma after_calls_advance (history : list Z) (w : World) :
  after_calls history w = advance (length history) w.
Proof.
  unfold after_calls. revert w. induction history as [|n h IH]; intros w.
  - by rewrite advance_0.
  - cbn [foldl length]. by rewrite marcha_world, IH, seeded_advance.
Qed.

Lemma final_of_ext (g g' : nat -> nat) (n : nat) :
  (forall k, (k < n)%nat -> g k = g' k) -> final_of g n = final_of g' n.
Proof.
  intros Hg. unfold final_of, pasos_of, np.integers. cbn [fst np.words np.drawn].
  do 2 f_equal. apply List.map_ext_in. intros k Hk.
  apply List.in_seq in Hk. rewrite Hg by lia. reflexivity.
Qed.

Lemma marcha_result_ext (n_pasos : Z) (w w' : World) :
  (forall k, (k < Z.to_nat n_pasos)%nat ->
             os_entropy w (rng_created w) k = os_entropy w' (rng_created w') k) ->
  fst (marcha n_pasos w) = fst (marcha n_pasos w').
Proof.
  intros Hg. destruct (Z.lt_trichotomy n_pasos 0) as [H | [-> | H]].
  - by rewrite !marcha_negative.
  - reflexivity.
  - rewrite !marcha_spec by lia. cbn [fst]. f_equal. by apply final_of_ext.
Qed.

(** C8: every call of [marcha] seeds a generator of its own and reads it
    from its first word; outside its locals it only takes one more seed
    from the operating system.  Hence the result of a call is a function
    of its own seed alone: two runs with any earlier calls of [marcha],
    of any number and with any arguments, in worlds that differ in every
    other seed, return the same value as soon as the seed of this call is
    the same. *)
Theorem marcha_shares_no_random_state
    (n_pasos : Z) (history history' : list Z) (w w' : World) :
  (forall k, (k < Z.to_nat n_pasos)%nat ->
             os_entropy w (rng_created w + length history) k
             = os_entropy w' (rng_created w' + length history') k) ->
  fst (marcha n_pasos (after_calls history w))
  = fst (marcha n_pasos (after_calls history' w')) /\
  fst (np.default_rng (after_calls history w))
  = Ok (np.mkGenerator (os_entropy w (rng_created w + length history)) 0) /\
  snd (marcha n_pasos (after_calls history w)) = advance (S (length history)) w /\
  (1 <= n_pasos ->
   fst (marcha n_pasos (after_calls history w))
   = Ok (final_of (os_entropy w (rng_created w + length history)) (Z.to_nat n_pasos))).
Proof.
  intros Hseed. rewrite !after_calls_advance. split; [| split; [| split]].
  - apply marcha_result_ext. exact Hseed.
  - reflexivity.
  - by rewrite marcha_world, advance_seeded.
  - intros Hn. by rewrite marcha_spec.
Qed.

Lemma marcha_shares_no_random_state_witness :
  (forall k, (k < Z.to_nat 4)%nat ->
             os_entropy w_ex (rng_created w_ex + length [2; 0; 7]) k
             = os_entropy w_ex' (rng_created w_ex' + length ([] : list Z)) k) /\
  fst (marcha 4 (after_calls [2; 0; 7] w_ex)) = fst (marcha 4 (after_calls [] w_ex')).
Proof.
  assert (H : forall k, (k < Z.to_nat 4)%nat ->
             os_entropy w_ex (rng_created w_ex + length [2; 0; 7]) k
             = os_entropy w_ex' (rng_created w_ex' + length ([] : list Z)) k).
  { intros k Hk. change (Z.to_nat 4) with 4%nat in Hk.
    do 4 (destruct k as [|k]; [reflexivity |]). lia. }
  split; [exact H |].
  exact (proj1 (marcha_shares_no_random_state 4 [2; 0; 7] [] w_ex w_ex' H)).
Defined.

(** ** Least squares *)

Local Open Scope Q_scope.

Lemma sumQ_cons (q : Q) (l : list Q) : sumQ (q :: l) = q + sumQ l.
Proof. reflexivity. Qed.

Lemma dotQ_cons (a b : Q) (x y : list Q) :
  dotQ (a :: x) (b :: y) = a * b + dotQ x y.
Proof. reflexivity. Qed.

Lemma sse_cons (a b xi yi : Q) (x y : list Q) :
  sse a b (xi :: x) (yi :: y)
  = (yi - (a * xi + b)) * (yi - (a * xi + b)) + sse a b x y.
Proof. reflexivity. Qed.

Lemma inject_length_cons {A} (v : A) (l : list A) :
  inject_Z (Z.of_nat (length (v :: l))) == inject_Z (Z.of_nat (length l)) + 1.
Proof.
  cbn [length]. rewrite Nat2Z.inj_succ, <- Z.add_1_r, inject_Z_plus. reflexivity.
Qed.

Lemma inject_length_pos {A} (l : list A) : l <> [] -> 0 < inject_Z (Z.of_nat (length l)).
Proof.
  intros Hl. change 0 with (inject_Z 0). rewrite <- Zlt_Qlt.
  destruct l; [done | simpl length; lia].
Qed.

(** The squared error of any line against the squared error of the line
    [(a, b)]: the cross term is made of the two normal equations. *)
Lemma sse_expand (a b a' b' : Q) (x y : list Q) :
  length x = length y ->
  sse a' b' x y
  == sse a b x y
     + 2 * ((a - a') * (dotQ x y - a * dotQ x x - b * sumQ x)
            + (b - b') * (sumQ y - a * sumQ x - b * inject_Z (Z.of_nat (length x))))
     + sumQ (map (fun xi => ((a - a') * xi + (b - b')) * ((a - a') * xi + (b - b'))) x).
Proof.
  revert y. induction x as [|xi x IH]; intros [|yi y] Hlen; try discriminate.
  - unfold sse, dotQ. simpl. ring.
  - injection Hlen as Hlen.
    rewrite !sse_cons, (IH y Hlen), !dotQ_cons, !sumQ_cons, inject_length_cons.
    cbn [map]. rewrite sumQ_cons. ring.
Qed.

Lemma sumQ_squares_nonneg (f : Q -> Q) (x : list Q) :
  0 <= sumQ (map (fun xi => f xi * f xi) x).
Proof.
  induction x as [|xi x IH]; [apply Qle_refl |].
  cbn [map]. rewrite sumQ_cons.
  generalize dependent (sumQ (map (fun xi => f xi * f xi) x)).
  generalize (f xi). intros q s Hs. nra.
Qed.

(** A line that satisfies both normal equations has the least squared
    error. *)
Lemma normal_equations_minimise (a b : Q) (x y : list Q) :
  length x = length y ->
  dotQ x y - a * dotQ x x - b * sumQ x == 0 ->
  sumQ y - a * sumQ x - b * inject_Z (Z.of_nat (length x)) == 0 ->
  forall a' b', sse a b x y <= sse a' b' x y.
Proof.
  intros Hlen H1 H2 a' b'. rewrite (sse_expand a b a' b' x y Hlen), H1, H2.
  pose proof (sumQ_squares_nonneg (fun xi => (a - a') * xi + (b - b')) x) as Hsq.
  cbv beta in Hsq. lra.
Qed.

Lemma sumQ_centered (m : Q) (x : list Q) :
  sumQ (map (fun xi => (xi - m) * (xi - m)) x)
  == dotQ x x - 2 * m * sumQ x + inject_Z (Z.of_nat (length x)) * m * m.
Proof.
  induction x as [|xi x IH].
  - unfold dotQ. simpl. ring.
  - cbn [map]. rewrite !sumQ_cons, IH, dotQ_cons, inject_length_cons. ring.
Qed.

Lemma sumQ_squares_zero (f : Q -> Q) (x : list Q) :
  sumQ (map (fun xi => f xi * f xi) x) == 0 -> Forall (fun xi => f xi == 0) x.
Proof.
  induction x as [|xi x IH]; intros H; [constructor |].
  cbn [map] in H. rewrite sumQ_cons in H.
  pose proof (sumQ_squares_nonneg f x) as Hs.
  assert (Hsq : 0 <= f xi * f xi) by nra.
  assert (Hx : f xi * f xi == 0) by lra.
  assert (Hr : sumQ (map (fun xi => f xi * f xi) x) == 0) by lra.
  constructor; [| by apply IH].
  destruct (Qmult_integral _ _ Hx); assumption.
Qed.

Lemma dotQ_constant (m : Q) (x y : list Q) :
  length x = length y -> Forall (fun xi => xi == m) x -> dotQ x y == m * sumQ y.
Proof.
  revert y. induction x as [|xi x IH]; intros [|yi y] Hlen Hall; try discriminate.
  - unfold dotQ. simpl. ring.
  - injection Hlen as Hlen. inversion Hall as [|? ? Hxi Hx]; subst.
    rewrite dotQ_cons, sumQ_cons, (IH y Hlen Hx), Hxi. ring.
Qed.

Lemma sumQ_Forall2 (x y : list Q) : Forall2 Qeq x y -> sumQ x == sumQ y.
Proof.
  induction 1 as [|a b x y Hab _ IH]; [reflexivity |].
  by rewrite !sumQ_cons, Hab, IH.
Qed.

Lemma dotQ_Forall2 (x y z : list Q) : Forall2 Qeq y z -> dotQ x y == dotQ x z.
Proof.
  intros H. revert x. induction H as [|a b y z Hab _ IH]; intros [|xi x];
    try reflexivity.
  by rewrite !dotQ_cons, Hab, IH.
Qed.

Lemma Qeq_bool_true_eq (a b : Q) : Qeq_bool a b = true -> a == b.
Proof. apply Qeq_bool_iff. Qed.

Section LeastSquares.

Variables x ys : list Q.
Hypothesis Hx : x <> [].
Hypothesis Hlen : length x = length ys.

Let n : Q := inject_Z (Z.of_nat (length x)).

(** A vanishing determinant means that all [x_i] are equal to their
    mean. *)
Lemma det_zero_constant :
  n * dotQ x x - sumQ x * sumQ x == 0 ->
  Forall (fun xi => xi == sumQ x / n) x.
Proof.
  intros Hdet. pose proof (inject_length_pos x Hx) as Hn. fold n in Hn.
  assert (H0 : sumQ (map (fun xi => (xi - sumQ x / n) * (xi - sumQ x / n)) x) == 0).
  { rewrite sumQ_centered. fold n.
    assert (E : dotQ x x == sumQ x * sumQ x / n).
    { apply (Qmult_inj_l _ _ n); [lra |]. field_simplify; [| lra]. lra. }
    rewrite E. field. lra. }
  apply (sumQ_squares_zero (fun xi => xi - sumQ x / n)) in H0.
  eapply Forall_impl; [exact H0 |]. cbv beta. intros xi Hxi. lra.
Qed.

(** [lstsq_line] returns a line that satisfies the normal equations. *)
Lemma lstsq_line_normal :
  ~ dotQ x x == 0 ->
  exists slope intercept,
    np.lstsq_line x ys = Ok (slope, intercept) /\
    dotQ x ys - slope * dotQ x x - intercept * sumQ x == 0 /\
    sumQ ys - slope * sumQ x - intercept * n == 0.
Proof.
  intros Hxx. pose proof (inject_length_pos x Hx) as Hn. fold n in Hn.
  unfold np.lstsq_line. fold n.
  destruct (Qeq_bool (dotQ x x) 0) eqn:E0; [by apply Qeq_bool_true_eq in E0 |].
  clear E0.
  destruct (Qeq_bool _ 0) eqn:Edet.
  - apply Qeq_bool_true_eq in Edet.
    pose proof (det_zero_constant Edet) as Hconst.
    pose proof (dotQ_constant _ x ys Hlen Hconst) as Hxy.
    pose proof (dotQ_constant _ x x eq_refl Hconst) as Hxx'.
    assert (HSx : ~ sumQ x == 0).
    { intros E. apply Hxx. rewrite Hxx', E. field. lra. }
    eexists _, _. split; [reflexivity |]. rewrite Hxy, Hxx'.
    split; field; split; (lra || done).
  - apply Qeq_bool_false_neq in Edet.
    eexists _, _. split; [reflexivity |].
    split; field; split; (lra || done).
Qed.

(** So it has the least squared error of all lines. *)
Lemma lstsq_line_minimises :
  ~ dotQ x x == 0 ->
  exists slope intercept,
    np.lstsq_line x ys = Ok (slope, intercept) /\
    forall a b, sse slope intercept x ys <= sse a b x ys.
Proof.
  intros Hxx.
  destruct (lstsq_line_normal Hxx) as (slope & intercept & Hfit & H1 & H2).
  exists slope, intercept. split; [exact Hfit |].
  by apply normal_equations_minimise.
Qed.

(** The fit of data that lie on the diagonal, at full rank. *)
Lemma lstsq_line_diagonal (slope intercept : Q) :
  Forall2 Qeq ys x ->
  ~ n * dotQ x x - sumQ x * sumQ x == 0 ->
  np.lstsq_line x ys = Ok (slope, intercept) ->
  slope == 1 /\ intercept == 0.
Proof.
  intros Hyx Hdet. pose proof (inject_length_pos x Hx) as Hn. fold n in Hn.
  unfold np.lstsq_line. fold n.
  destruct (Qeq_bool (dotQ x x) 0); [done |].
  destruct (Qeq_bool _ 0) eqn:Edet; [by apply Qeq_bool_true_eq in Edet |].
  intros H. injection H as <- <-.
  rewrite (sumQ_Forall2 _ _ Hyx), (dotQ_Forall2 x _ _ Hyx).
  split; field; repeat split; first [exact Hdet | lra].
Qed.

End LeastSquares.

(** ** [momentos_vs_N] *)

Local Close Scope Q_scope.

Lemma moments_of_length w valores_N runs :
  length (moments_of w valores_N runs) = length valores_N.
Proof.
  revert w. induction valores_N as [|N rest IH]; intros w; [done |].
  cbn [moments_of length]. by rewrite IH.
Qed.

Lemma moments_of_lookup w valores_N runs i N :
  valores_N !! i = Some N ->
  moments_of w valores_N runs !! i
  = Some (np.mean (trials (advance (i * runs) w) (Z.to_nat N) runs),
          np.mean (np.squares (trials (advance (i * runs) w) (Z.to_nat N) runs))).
Proof.
  revert w i. induction valores_N as [|N0 rest IH]; intros w i Hi; [done |].
  destruct i as [|i].
  - injection Hi as ->. cbn [moments_of]. by rewrite advance_0.
  - cbn [moments_of]. cbn [lookup list_lookup] in Hi |- *.
    rewrite (IH _ _ Hi), advance_advance. reflexivity.
Qed.

(** The loop of [momentos_vs_N]: each turn appends the two moments of the
    next [runs] trials. *)
Lemma momentos_loop (valores_N : list Z) (runs : Z) (acc1 acc2 : list float64) (w : World) :
  Forall (fun N => 1 <= N) valores_N -> 0 <= runs ->
  for_each valores_N
    (fun N '(medios, medios_x2) =>
       finales ← pos_finales N runs;
       mret (medios ++ [np.mean finales], medios_x2 ++ [np.mean (np.squares finales)]))
    (acc1, acc2) w
  = (Ok (acc1 ++ map fst (moments_of w valores_N (Z.to_nat runs)),
         acc2 ++ map snd (moments_of w valores_N (Z.to_nat runs))),
     advance (length valores_N * Z.to_nat runs) w).
Proof.
  intros HN Hr. revert acc1 acc2 w.
  induction HN as [|N rest HN1 _ IH]; intros acc1 acc2 w.
  - cbn [for_each moments_of map length]. rewrite !app_nil_r.
    change (0 * Z.to_nat runs)%nat with 0%nat. by rewrite advance_0.
  - cbn [for_each]. unfold mbind at 1, M_bind at 1.
    rewrite (bind_ok _ _ _ _ _ (pos_finales_spec N runs w HN1 Hr)).
    unfold mret, M_ret. rewrite IH. cbn [moments_of map fst snd length].
    rewrite advance_advance, <- !app_assoc. reflexivity.
Qed.

Lemma momentos_vs_N_spec (valores_N : list Z) (runs : Z) (w : World) :
  Forall (fun N => 1 <= N) valores_N -> 0 <= runs ->
  let moments := moments_of w valores_N (Z.to_nat runs) in
  let N_arr := map inject_Z valores_N in
  let w' := advance (length valores_N * Z.to_nat runs) w in
  momentos_vs_N valores_N runs w
  = match np.polyfit1 N_arr (map snd moments) with
    | Ok (slope, intercept) =>
        (Ok (map fst moments, map snd moments, slope, fdiv slope (Fin 2%Q)),
         drawn_on w' (momentos_figure N_arr (map snd moments) slope intercept))
    | Raise e => (Raise e, w')
    end.
Proof.
  intros HN Hr. cbv zeta. unfold momentos_vs_N. unfold_plt.
  rewrite (bind_ok _ _ _ _ _ (momentos_loop valores_N runs [] [] w HN Hr)).
  cbn [app]. destruct (np.polyfit1 _ _) as [[slope intercept] | e].
  - rewrite bind_lift_ok, !bind_draw, !drawn_on_drawn_on. reflexivity.
  - by rewrite bind_lift_raise.
Qed.

Lemma finite_values_map_Fin (ys : list Q) : np.finite_values (map Fin ys) = Some ys.
Proof.
  induction ys as [|q ys IH]; [done |]. cbn [map np.finite_values]. by rewrite IH.
Qed.

Lemma all_fin_map_Fin (l : list float64) :
  Forall is_fin l -> exists ys : list Q, l = map Fin ys.
Proof.
  induction 1 as [|f l [q ->] _ (ys & ->)]; [by exists [] | by exists (q :: ys)].
Qed.

(** [np.polyfit] on data without [nan] is the least-squares line. *)
Lemma polyfit1_finite (x ys : list Q) :
  x <> [] -> length x = length ys ->
  np.polyfit1 x (map Fin ys)
  = match np.lstsq_line x ys with
    | Ok (slope, intercept) => Ok (Fin slope, Fin intercept)
    | Raise e => Raise e
    end.
Proof.
  intros Hx Hlen. unfold np.polyfit1. rewrite length_map, <- Hlen, Nat.eqb_refl.
  destruct x; [done |]. cbn [length Nat.eqb negb].
  by rewrite finite_values_map_Fin.
Qed.

Lemma mean_is_fin (l : list Q) : l <> [] -> is_fin (np.mean l).
Proof. destruct l; [done |]. intros _. by eexists. Qed.

Lemma moments_of_fin w valores_N runs :
  (0 < runs)%nat ->
  Forall (fun p => is_fin (fst p) /\ is_fin (snd p)) (moments_of w valores_N runs).
Proof.
  intros Hr. revert w. induction valores_N as [|N rest IH]; intros w; [constructor |].
  cbn [moments_of]. constructor; [| apply IH].
  assert (Ht : trials w (Z.to_nat N) runs <> []).
  { intros E. apply (f_equal length) in E. rewrite trials_length in E.
    simpl in E. lia. }
  cbn [fst snd]. split; apply mean_is_fin; [done |].
  unfold np.squares. intros E. apply Ht. by apply map_eq_nil in E.
Qed.

Lemma dotQ_pos (x : list Q) :
  x <> [] -> Forall (fun v => 0 < v)%Q x -> (0 < dotQ x x)%Q.
Proof.
  intros Hx Hall. destruct Hall as [|v x Hv Hall]; [done |]. clear Hx.
  rewrite dotQ_cons.
  assert (Hrest : (0 <= dotQ x x)%Q).
  { clear Hv. induction Hall as [|u x Hu _ IH]; [apply Qle_refl |].
    rewrite dotQ_cons. nra. }
  nra.
Qed.

Lemma N_arr_pos (valores_N : list Z) :
  Forall (fun N => 1 <= N) valores_N ->
  Forall (fun v => 0 < v)%Q (map inject_Z valores_N).
Proof.
  intros H. rewrite Forall_map. eapply Forall_impl; [exact H |].
  cbv beta. intros N HN. change 0%Q with (inject_Z 0). rewrite <- Zlt_Qlt. lia.
Qed.

(** C4, as the code has it: for a non-empty list of step counts, each
    at least 1, and [runs >= 1], [momentos_vs_N] computes for the [i]-th
    [N] the sample mean [m1[i]] and the sample mean of squares [m2[i]]
    of the [runs] final positions [pos_finales] returns for it, fits
    [m2] against [N] by least squares with a free intercept (the fitted
    line has the least sum of squared residuals on the points
    [(N_i, m2[i])] among all lines), and returns [D = slope / 2].
    Floats are read as exact rationals: [m2] is the list [ys] of
    rationals, one for each [N]. *)
Theorem momentos_vs_N_fits_least_squares (valores_N : list Z) (runs : Z) (w : World) :
  valores_N <> [] -> Forall (fun N => 1 <= N) valores_N -> 1 <= runs ->
  exists (m1 m2 : list float64) (ys : list Q) (slope intercept : Q),
    let N_arr := map inject_Z valores_N in
    momentos_vs_N valores_N runs w
    = (Ok (m1, m2, Fin slope, Fin (slope / 2)%Q),
       drawn_on (advance (length valores_N * Z.to_nat runs) w)
                (momentos_figure N_arr m2 (Fin slope) (Fin intercept))) /\
    length m1 = length valores_N /\
    m2 = map Fin ys /\
    length ys = length valores_N /\
    (forall (i : nat) (N : Z),
        valores_N !! i = Some N ->
        let w_i := advance (i * Z.to_nat runs) w in
        exists finales : list Q,
          pos_finales N runs w_i = (Ok finales, advance (Z.to_nat runs) w_i) /\
          Z.of_nat (length finales) = runs /\
          m1 !! i = Some (Fin (sumQ finales / inject_Z runs)) /\
          ys !! i = Some (sumQ (np.squares finales) / inject_Z runs)%Q) /\
    np.polyfit1 N_arr m2 = Ok (Fin slope, Fin intercept) /\
    (forall a b : Q, sse slope intercept N_arr ys <= sse a b N_arr ys)%Q.
Proof.
  intros Hne HN Hr.
  pose proof (momentos_vs_N_spec valores_N runs w HN ltac:(lia)) as Hspec.
  cbv zeta in Hspec.
  set (moments := moments_of w valores_N (Z.to_nat runs)) in *.
  set (N_arr := map inject_Z valores_N) in *.
  assert (Hfin : Forall is_fin (map snd moments)).
  { rewrite Forall_map. eapply Forall_impl; [apply moments_of_fin; lia |].
    cbv beta. by intros p [_ H]. }
  destruct (all_fin_map_Fin _ Hfin) as (ys & Hys).
  assert (Hlen : length ys = length valores_N).
  { apply (f_equal length) in Hys. rewrite !length_map in Hys.
    unfold moments in Hys. by rewrite moments_of_length in Hys. }
  assert (HNarr : N_arr <> []).
  { unfold N_arr. intros E. by apply map_eq_nil in E. }
  assert (Hlx : length N_arr = length valores_N) by (unfold N_arr; by rewrite length_map).
  destruct (lstsq_line_minimises N_arr ys HNarr ltac:(lia))
    as (slope & intercept & Hfit & Hmin).
  { pose proof (dotQ_pos N_arr HNarr (N_arr_pos _ HN)). lra. }
  assert (Hpoly : np.polyfit1 N_arr (map snd moments) = Ok (Fin slope, Fin intercept)).
  { rewrite Hys, polyfit1_finite by (done || lia). by rewrite Hfit. }
  rewrite Hpoly in Hspec.
  exists (map fst moments), (map snd moments), ys, slope, intercept. cbv zeta.
  split; [exact Hspec |].
  split; [unfold moments; by rewrite length_map, moments_of_length |].
  split; [exact Hys |]. split; [exact Hlen |].
  split; [| done].
  intros i N Hi.
  exists (trials (advance (i * Z.to_nat runs) w) (Z.to_nat N) (Z.to_nat runs)).
  assert (HNi : 1 <= N).
  { rewrite Forall_forall in HN. apply HN. by eapply list_elem_of_lookup_2. }
  split; [apply pos_finales_spec; lia |].
  split; [rewrite trials_length; lia |].
  pose proof (moments_of_lookup w valores_N (Z.to_nat runs) i N Hi) as Hm.
  fold moments in Hm.
  assert (Hmean : forall l : list Q, Z.of_nat (length l) = runs ->
                    np.mean l = Fin (sumQ l / inject_Z runs)).
  { intros l Hl. destruct l as [|q l]; [simpl in Hl; lia |].
    unfold np.mean. by rewrite Hl. }
  split.
  - change (map fst moments) with (fst <$> moments).
    rewrite list_lookup_fmap, Hm. cbn [fmap option_fmap option_map fst].
    rewrite Hmean; [done |]. rewrite trials_length. lia.
  - assert (Hs : (snd <$> moments) !! i
                 = Some (Fin (sumQ (np.squares
                     (trials (advance (i * Z.to_nat runs) w) (Z.to_nat N) (Z.to_nat runs)))
                     / inject_Z runs))).
    { rewrite list_lookup_fmap, Hm. cbn [fmap option_fmap option_map snd].
      rewrite Hmean; [done |].
      unfold np.squares. rewrite length_map, trials_length. lia. }
    change (snd <$> moments) with (map snd moments) in Hs. rewrite Hys in Hs.
    change (map Fin ys) with (Fin <$> ys) in Hs. rewrite list_lookup_fmap in Hs.
    destruct (ys !! i) as [y |]; [| done].
    cbn [fmap option_fmap option_map] in Hs. by injection Hs as ->.
Qed.

Lemma momentos_vs_N_fits_least_squares_witness :
  [1; 2; 3] <> [] /\ Forall (fun N => 1 <= N) [1; 2; 3] /\ 1 <= 4 /\
  exists (m1 m2 : list float64) (ys : list Q) (slope intercept : Q),
    fst (momentos_vs_N [1; 2; 3] 4 w_ex) = Ok (m1, m2, Fin slope, Fin (slope / 2)%Q) /\
    m2 = map Fin ys /\ length ys = 3%nat /\
    (forall a b : Q, sse slope intercept (map inject_Z [1; 2; 3]%Z) ys
                     <= sse a b (map inject_Z [1; 2; 3]%Z) ys)%Q.
Proof.
  assert (Hne : [1; 2; 3] <> []) by discriminate.
  assert (HN : Forall (fun N => 1 <= N) [1; 2; 3]) by (repeat constructor; lia).
  split; [exact Hne |]. split; [exact HN |]. split; [lia |].
  destruct (momentos_vs_N_fits_least_squares [1; 2; 3] 4 w_ex Hne HN ltac:(lia))
    as (m1 & m2 & ys & slope & intercept & Hm & _ & Hys & Hlen & _ & _ & Hmin).
  exists m1, m2, ys, slope, intercept.
  split; [by rewrite Hm |]. split; [exact Hys |]. split; [exact Hlen | exact Hmin].
Defined.

(** C4 as stated fails: the list [[3; 0; 5]] is not empty and [runs] is
    2, and [momentos_vs_N] returns no moments and no [D]: the first walk
    of zero steps raises [IndexError], after the two walks of three
    steps. *)
Lemma momentos_vs_N_fails_on_zero_steps :
  [3; 0; 5] <> [] /\ 1 <= 2 /\
  momentos_vs_N [3; 0; 5] 2 w_ex = (Raise IndexError, advance 3 w_ex) /\
  ~ (exists r, fst (momentos_vs_N [3; 0; 5] 2 w_ex) = Ok r).
Proof.
  assert (H : momentos_vs_N [3; 0; 5] 2 w_ex = (Raise IndexError, advance 3 w_ex))
    by (vm_compute; reflexivity).
  split; [discriminate |]. split; [lia |]. split; [exact H |].
  intros [r Hr]. rewrite H in Hr. discriminate Hr.
Qed.

(** What a returned result of [momentos_vs_N] was computed from. *)
Lemma momentos_vs_N_inv (valores_N : list Z) (runs : Z) (w : World)
    (m1 m2 : list float64) (slope D : float64) :
  fst (momentos_vs_N valores_N runs w) = Ok (m1, m2, slope, D) ->
  exists intercept : float64,
    np.polyfit1 (map inject_Z valores_N) m2 = Ok (slope, intercept) /\
    D = fdiv slope (Fin 2%Q).
Proof.
  unfold momentos_vs_N. unfold_plt. unfold mbind at 1, M_bind at 1.
  destruct (for_each _ _ _ w) as [[[medios medios_x2] | e] w1]; [| done].
  destruct (np.polyfit1 (map inject_Z valores_N) medios_x2) as [[s i] | e] eqn:Ep.
  - rewrite bind_lift_ok, !bind_draw. unfold mret, M_ret. cbn [fst].
    intros H. injection H as <- <- <- <-. by exists i.
  - by rewrite bind_lift_raise.
Qed.

Lemma Forall2_Fin_map (m2 : list float64) (valores_N : list Z) :
  Forall2 (fun v N => exists q : Q, v = Fin q /\ (q == inject_Z N)%Q) m2 valores_N ->
  exists ys : list Q, m2 = map Fin ys /\ Forall2 Qeq ys (map inject_Z valores_N).
Proof.
  induction 1 as [|v N m2 valores_N (q & -> & Hq) _ (ys & -> & Hys)].
  - by exists [].
  - exists (q :: ys). split; [done |]. by constructor.
Qed.

Local Open Scope Q_scope.

(** Two different step counts in the list: the fit has full rank. *)
Lemma det_nonzero_distinct (valores_N : list Z) (N N' : Z) :
  N ∈ valores_N -> N' ∈ valores_N -> N <> N' ->
  let x := map inject_Z valores_N in
  ~ inject_Z (Z.of_nat (length x)) * dotQ x x - sumQ x * sumQ x == 0.
Proof.
  intros HN HN' Hneq x Hdet.
  assert (Hx : x <> []).
  { unfold x. destruct valores_N; [by apply elem_of_nil in HN | done]. }
  pose proof (det_zero_constant x Hx Hdet) as Hconst.
  rewrite Forall_forall in Hconst.
  assert (H1 : inject_Z N ∈ x) by (by apply list_elem_of_fmap_2).
  assert (H2 : inject_Z N' ∈ x) by (by apply list_elem_of_fmap_2).
  apply Hconst in H1, H2. apply Hneq.
  rewrite <- H2 in H1. unfold Qeq in H1. simpl in H1. lia.
Qed.

(** C3, as the code has it: when the sample mean of squares equals [N]
    for every [N] of the list, and the list holds two different values,
    the least-squares fit of [momentos_vs_N] has slope 1 and intercept 0,
    and the diffusion constant returned is [D = 1/2] (the code follows
    [<x^2> = 2 D N]).  The values are those of exact arithmetic; the
    [float64] values of the code are their roundings, so the code
    returns approximately 1, 0 and 1/2. *)
Theorem momentos_limit_slope_one_D_half
    (valores_N : list Z) (runs : Z) (w : World)
    (m1 m2 : list float64) (slope D : float64) (N N' : Z) :
  fst (momentos_vs_N valores_N runs w) = Ok (m1, m2, slope, D) ->
  Forall2 (fun v N => exists q : Q, v = Fin q /\ q == inject_Z N) m2 valores_N ->
  N ∈ valores_N -> N' ∈ valores_N -> N <> N' ->
  exists s i d : Q,
    slope = Fin s /\ D = Fin d /\
    np.polyfit1 (map inject_Z valores_N) m2 = Ok (Fin s, Fin i) /\
    s == 1 /\ i == 0 /\ d == 1 # 2.
Proof.
  intros Hm Hdiag HN HN' Hneq.
  destruct (momentos_vs_N_inv _ _ _ _ _ _ _ Hm) as (intercept & Hpoly & ->).
  destruct (Forall2_Fin_map _ _ Hdiag) as (ys & -> & Hys).
  assert (Hx : map inject_Z valores_N <> []).
  { destruct valores_N; [by apply elem_of_nil in HN | done]. }
  assert (Hlen : length (map inject_Z valores_N) = length ys).
  { symmetry. by apply (Forall2_length _ _ _ Hys). }
  rewrite polyfit1_finite in Hpoly by done.
  destruct (np.lstsq_line (map inject_Z valores_N) ys) as [[s i] |] eqn:Efit; [| done].
  injection Hpoly as <- <-.
  destruct (lstsq_line_diagonal _ _ Hx _ _ Hys
              (det_nonzero_distinct valores_N N N' HN HN' Hneq) Efit)
    as [Hs Hi].
  exists s, i, (s / 2). split; [done |]. split; [done |].
  rewrite polyfit1_finite, Efit by done.
  split; [done |]. split; [exact Hs |]. split; [exact Hi |]. rewrite Hs. reflexivity.
Qed.

Lemma momentos_limit_slope_one_D_half_witness :
  fst (momentos_vs_N [1; 2]%Z 2 w_ex)
  = Ok ([Fin (0 # 2); Fin (2 # 2)], [Fin (2 # 2); Fin (4 # 2)],
        Fin (16 # 16), Fin (16 # 32)) /\
  Forall2 (fun v N => exists q : Q, v = Fin q /\ q == inject_Z N)
          [Fin (2 # 2); Fin (4 # 2)] [1; 2]%Z /\
  1%Z ∈ [1; 2]%Z /\ 2%Z ∈ [1; 2]%Z /\ 1%Z <> 2%Z /\
  exists s i d : Q,
    Fin (16 # 16) = Fin s /\ Fin (16 # 32) = Fin d /\
    np.polyfit1 (map inject_Z [1; 2]%Z) [Fin (2 # 2); Fin (4 # 2)] = Ok (Fin s, Fin i) /\
    s == 1 /\ i == 0 /\ d == 1 # 2.
Proof.
  assert (Hm : fst (momentos_vs_N [1; 2]%Z 2 w_ex)
               = Ok ([Fin (0 # 2); Fin (2 # 2)], [Fin (2 # 2); Fin (4 # 2)],
                     Fin (16 # 16), Fin (16 # 32))) by (vm_compute; reflexivity).
  assert (Hdiag : Forall2 (fun v N => exists q : Q, v = Fin q /\ q == inject_Z N)
                          [Fin (2 # 2); Fin (4 # 2)] [1; 2]%Z).
  { repeat constructor; eexists; (split; [reflexivity |]); reflexivity. }
  assert (H1 : 1%Z ∈ [1; 2]%Z) by (apply list_elem_of_here).
  assert (H2 : 2%Z ∈ [1; 2]%Z) by (apply list_elem_of_further, list_elem_of_here).
  assert (H12 : 1%Z <> 2%Z) by lia.
  repeat (split; [assumption |]).
  exact (momentos_limit_slope_one_D_half [1; 2]%Z 2 w_ex _ _ _ _ 1%Z 2%Z
           Hm Hdiag H1 H2 H12).
Defined.

(** C3 as stated fails: here the sample mean of squares equals [N] for
    both [N], and the fit has slope 1 and [D = 1/2], not 2 and 1.  With
    one value of [N] only the fit has rank one: for the list [[1]] the
    mean of squares is 1 and the fit has slope 1/2 and [D = 1/4]. *)
Lemma momentos_limit_slope_is_not_two :
  fst (momentos_vs_N [1; 2]%Z 2 w_ex)
  = Ok ([Fin (0 # 2); Fin (2 # 2)], [Fin (2 # 2); Fin (4 # 2)],
        Fin (16 # 16), Fin (16 # 32)) /\
  Forall2 Qeq [2 # 2; 4 # 2] (map inject_Z [1; 2]%Z) /\
  16 # 16 == 1 /\ 16 # 32 == 1 # 2 /\
  ~ (Qabs ((16 # 16) - 2) < 1) /\
  ~ (Qabs ((16 # 32) - 1) < 1 # 2) /\
  fst (momentos_vs_N [1]%Z 1 w_ex)
  = Ok ([Fin (-1)], [Fin 1], Fin (1 # 2), Fin (1 # 4)) /\
  Forall2 Qeq [1] (map inject_Z [1]%Z) /\
  ~ (Qabs ((1 # 2) - 1) < 1 # 2) /\
  ~ (Qabs ((1 # 2) - 2) < 1).
Proof.
  split; [vm_compute; reflexivity |].
  split; [repeat constructor |].
  split; [reflexivity |]. split; [reflexivity |].
  split; [intros H; vm_compute in H; discriminate |].
  split; [intros H; vm_compute in H; discriminate |].
  split; [vm_compute; reflexivity |].
  split; [repeat constructor |].
  split; intros H; vm_compute in H; discriminate.
Qed.

(** * Further properties of the script *)

Local Close Scope Q_scope.

(** ** What each function leaves untouched *)

Section Preserves.

Context {B : Type} (f : World -> B).

Lemma preserves_ret {A} (a : A) : preserves f (mret a).
Proof. by intros w. Qed.

Lemma preserves_raise {A} (e : exn) : preserves f (raise e : M A).
Proof. by intros w. Qed.

Lemma preserves_lift {A} (r : result A) : preserves f (lift r).
Proof. by intros w. Qed.

Lemma preserves_bind {A C} (m : M A) (k : A -> M C) :
  preserves f m -> (forall a, preserves f (k a)) -> preserves f (m ≫= k).
Proof.
  intros Hm Hk w. unfold mbind, M_bind. specialize (Hm w).
  destruct (m w) as [[a | e] w1]; cbn [snd] in *; [| done].
  by rewrite Hk.
Qed.

Lemma preserves_for_each {A S} (xs : list A) (body : A -> S -> M S) (s : S) :
  (forall x s, preserves f (body x s)) -> preserves f (for_each xs body s).
Proof.
  intros Hbody. revert s. induction xs as [|x xs IH]; intros s; cbn [for_each].
  - apply preserves_ret.
  - apply preserves_bind; [apply Hbody | exact IH].
Qed.

(** What seeding, drawing and printing leave untouched. *)
Hypothesis Hseed : forall w, f (seeded w) = f w.

Lemma preserves_marcha (n_pasos : Z) : preserves f (marcha n_pasos).
Proof. intros w. by rewrite marcha_world. Qed.

Lemma preserves_pos_finales (n_pasos runs : Z) : preserves f (pos_finales n_pasos runs).
Proof.
  unfold pos_finales. apply preserves_bind; [apply preserves_lift |].
  intros finales. apply preserves_for_each. intros i fin.
  apply preserves_bind; [apply preserves_marcha | intros x; apply preserves_lift].
Qed.

End Preserves.

Section PreservesDraw.

Context {B : Type} (f : World -> B).
Hypothesis Hdraw : forall w cmds, f (drawn_on w cmds) = f w.

Lemma preserves_draw (c : plt_cmd) : preserves f (draw c).
Proof. intros w. apply Hdraw. Qed.

Lemma preserves_histograma (posi_finales : list Q) (n_pasos bins : Z) :
  preserves f (histograma posi_finales n_pasos bins).
Proof.
  unfold histograma, plt.hist. unfold_plt.
  repeat first
    [ apply preserves_draw | apply preserves_lift | apply preserves_raise
    | apply preserves_bind; [| intros ?]
    | match goal with |- preserves _ (if ?b then _ else _) => destruct b end ].
Qed.

Hypothesis Hseed : forall w, f (seeded w) = f w.

Lemma preserves_momentos_vs_N (valores_N : list Z) (runs : Z) :
  preserves f (momentos_vs_N valores_N runs).
Proof.
  unfold momentos_vs_N. unfold_plt.
  apply preserves_bind.
  - apply preserves_for_each. intros N [medios medios_x2].
    apply preserves_bind; [by apply preserves_pos_finales |].
    intros finales. apply preserves_ret.
  - intros [medios medios_x2].
    apply preserves_bind; [apply preserves_lift |]. intros [slope intercept].
    repeat first
      [ apply preserves_draw | apply preserves_ret
      | apply preserves_bind; [| intros ?] ].
Qed.

End PreservesDraw.

(** X1: [marcha] and [pos_finales] neither draw nor print, [histograma]
    neither prints nor takes a seed, [momentos_vs_N] does not print, and
    none of them touches the entropy source: this holds for every
    argument, whether the call returns or raises. *)
Theorem functions_leave_untouched
    (n_pasos runs bins : Z) (posi_finales : list Q) (valores_N : list Z) (w : World) :
  let w1 := snd (marcha n_pasos w) in
  let w2 := snd (pos_finales n_pasos runs w) in
  let w3 := snd (histograma posi_finales n_pasos bins w) in
  let w4 := snd (momentos_vs_N valores_N runs w) in
  (figures w1 = figures w /\ stdout w1 = stdout w /\ os_entropy w1 = os_entropy w) /\
  (figures w2 = figures w /\ stdout w2 = stdout w /\ os_entropy w2 = os_entropy w) /\
  (rng_created w3 = rng_created w /\ stdout w3 = stdout w
   /\ os_entropy w3 = os_entropy w) /\
  (stdout w4 = stdout w /\ os_entropy w4 = os_entropy w).
Proof.
  cbv zeta. repeat split.
  - by apply (preserves_marcha figures).
  - by apply (preserves_marcha stdout).
  - by apply (preserves_marcha os_entropy).
  - by apply (preserves_pos_finales figures).
  - by apply (preserves_pos_finales stdout).
  - by apply (preserves_pos_finales os_entropy).
  - by apply (preserves_histograma rng_created).
  - by apply (preserves_histograma stdout).
  - by apply (preserves_histograma os_entropy).
  - by apply (preserves_momentos_vs_N stdout).
  - by apply (preserves_momentos_vs_N os_entropy).
Qed.

(** ** Where [marcha] and [pos_finales] fail *)

(** X2: [marcha] returns only when [n_pasos >= 1]: for [n_pasos = 0] it
    raises [IndexError], for a negative [n_pasos] within numpy's index
    type [ValueError]; in every case it has taken exactly one seed. *)
Theorem marcha_needs_a_step (n_pasos : Z) (w : World) :
  (forall x : Z, fst (marcha n_pasos w) = Ok x -> 1 <= n_pasos) /\
  (n_pasos = 0 -> fst (marcha n_pasos w) = Raise IndexError) /\
  (np.intp_min <= n_pasos < 0 -> fst (marcha n_pasos w) = Raise ValueError) /\
  rng_created (snd (marcha n_pasos w)) = S (rng_created w).
Proof.
  split; [| split; [| split]].
  - intros x Hx. destruct (Z.lt_trichotomy n_pasos 0) as [H | [-> | H]].
    + by rewrite marcha_negative in Hx.
    + by rewrite marcha_zero in Hx.
    + lia.
  - intros ->. by rewrite marcha_zero.
  - intros [_ Hn]. by rewrite marcha_negative.
  - by rewrite marcha_world.
Qed.

Lemma marcha_needs_a_step_witness :
  0 = 0 /\ np.intp_min <= -3 < 0 /\
  fst (marcha 2 w_ex) = Ok 0 /\ 1 <= 2 /\
  fst (marcha 0 w_ex) = Raise IndexError /\
  fst (marcha (-3) w_ex) = Raise ValueError.
Proof.
  assert (Hneg : np.intp_min <= -3 < 0) by (unfold np.intp_min; lia).
  assert (Hok : fst (marcha 2 w_ex) = Ok 0) by (vm_compute; reflexivity).
  split; [reflexivity |]. split; [exact Hneg |]. split; [exact Hok |].
  split; [exact (proj1 (marcha_needs_a_step 2 w_ex) 0 Hok) |].
  split; [apply (marcha_needs_a_step 0 w_ex); reflexivity |].
  apply (marcha_needs_a_step (-3) w_ex). exact Hneg.
Defined.

Lemma pos_finales_first_fails (n_pasos runs : Z) (w : World) (e : exn) :
  1 <= runs -> fst (marcha n_pasos w) = Raise e ->
  pos_finales n_pasos runs w = (Raise e, seeded w).
Proof.
  intros Hr He. unfold pos_finales, np.empty, py.range.
  destruct (Z.ltb_spec runs 0); [lia |].
  rewrite bind_lift_ok.
  destruct (Z.to_nat runs) as [|k] eqn:Ek; [lia |].
  cbn [seq map for_each].
  pose proof (marcha_world n_pasos w) as Hw.
  destruct (marcha n_pasos w) as [r w1] eqn:Em. cbn [fst snd] in *. subst.
  unfold mbind at 1, M_bind at 1. unfold mbind at 1, M_bind at 1.
  by rewrite Em.
Qed.

(** X3: [pos_finales] returns only when [runs = 0], or [runs >= 1] and
    [n_pasos >= 1].  A negative [runs] (within numpy's index type) is a
    [ValueError] before any seed is taken; with [runs >= 1] (an array
    of modest size), [n_pasos = 0] is an [IndexError] and a negative
    [n_pasos] a [ValueError], both raised by the first walk, after one
    seed. *)
Theorem pos_finales_needs_steps (n_pasos runs : Z) (w : World) :
  (forall finales, fst (pos_finales n_pasos runs w) = Ok finales ->
   runs = 0 \/ (1 <= runs /\ 1 <= n_pasos)) /\
  (np.intp_min <= runs < 0 -> pos_finales n_pasos runs w = (Raise ValueError, w)) /\
  (1 <= runs <= np.modest_size -> n_pasos = 0 ->
   pos_finales n_pasos runs w = (Raise IndexError, seeded w)) /\
  (1 <= runs <= np.modest_size -> np.intp_min <= n_pasos < 0 ->
   pos_finales n_pasos runs w = (Raise ValueError, seeded w)).
Proof.
  assert (H0 : 1 <= runs -> n_pasos = 0 ->
               pos_finales n_pasos runs w = (Raise IndexError, seeded w)).
  { intros Hr ->. apply pos_finales_first_fails; [done |]. by rewrite marcha_zero. }
  assert (Hneg : 1 <= runs -> n_pasos < 0 ->
                 pos_finales n_pasos runs w = (Raise ValueError, seeded w)).
  { intros Hr Hn. apply pos_finales_first_fails; [done |]. by rewrite marcha_negative. }
  split; [| split; [| split]].
  - intros finales Hf.
    destruct (Z.lt_trichotomy runs 0) as [Hr | [-> | Hr]]; [| by left |].
    + by rewrite pos_finales_negative_runs in Hf.
    + right. split; [lia |].
      destruct (Z.lt_trichotomy n_pasos 0) as [Hn | [Hn | Hn]]; [| | lia].
      * by rewrite Hneg in Hf by lia.
      * by rewrite H0 in Hf by lia.
  - intros [_ Hr]. by apply pos_finales_negative_runs.
  - intros [Hr _]. by apply H0.
  - intros [Hr _] [_ Hn]. by apply Hneg.
Qed.

Lemma pos_finales_needs_steps_witness :
  np.intp_min <= -1 < 0 /\ 1 <= 2 <= np.modest_size /\ 0 = 0 /\
  np.intp_min <= -4 < 0 /\
  pos_finales 3 (-1) w_ex = (Raise ValueError, w_ex) /\
  pos_finales 0 2 w_ex = (Raise IndexError, seeded w_ex) /\
  pos_finales (-4) 2 w_ex = (Raise ValueError, seeded w_ex).
Proof.
  assert (H1 : np.intp_min <= -1 < 0) by (unfold np.intp_min; lia).
  assert (H4 : np.intp_min <= -4 < 0) by (unfold np.intp_min; lia).
  assert (H2 : 1 <= 2 <= np.modest_size) by (unfold np.modest_size; lia).
  split; [exact H1 |]. split; [exact H2 |]. split; [reflexivity |]. split; [exact H4 |].
  split; [apply (pos_finales_needs_steps 3 (-1) w_ex); exact H1 |].
  split; [apply (pos_finales_needs_steps 0 2 w_ex); [exact H2 | reflexivity] |].
  apply (pos_finales_needs_steps (-4) 2 w_ex); [exact H2 | exact H4].
Defined.

(** ** The array of [pos_finales] *)

Lemma final_of_range_parity (g : nat -> nat) (n : nat) :
  - Z.of_nat n <= final_of g n <= Z.of_nat n
  /\ Z.even (final_of g n) = Z.even (Z.of_nat n).
Proof.
  pose proof (sumZ_steps_bound _ (pasos_of_steps g n)) as Hb.
  pose proof (sumZ_steps_parity _ (pasos_of_steps g n)) as Hp.
  rewrite pasos_of_length in Hb, Hp. by split.
Qed.

(** X4: for [n_pasos >= 1], every entry of the array [pos_finales]
    returns is a whole number between [-n_pasos] and [n_pasos] with the
    parity of [n_pasos]. *)
Theorem pos_finales_entries (n_pasos runs : Z) (w : World) (finales : list Q) :
  1 <= n_pasos ->
  fst (pos_finales n_pasos runs w) = Ok finales ->
  Forall (fun q => exists x : Z, q = inject_Z x /\ - n_pasos <= x <= n_pasos
                                 /\ Z.even x = Z.even n_pasos) finales.
Proof.
  intros Hn Hf. destruct (Z.lt_trichotomy runs 0) as [Hr | [-> | Hr]].
  - by rewrite pos_finales_negative_runs in Hf.
  - rewrite pos_finales_no_runs in Hf. injection Hf as <-. constructor.
  - rewrite pos_finales_spec in Hf by lia. injection Hf as <-.
    unfold trials. rewrite Forall_map. apply Forall_forall. intros i _.
    unfold trial. eexists. split; [reflexivity |].
    destruct (final_of_range_parity (os_entropy w (rng_created w + i)) (Z.to_nat n_pasos))
      as [Hb Hp].
    rewrite Z2Nat.id in Hb, Hp by lia. by split.
Qed.

Lemma pos_finales_entries_witness :
  1 <= 3 /\ fst (pos_finales 3 4 w_ex) = Ok [-1; 3; -1; 3]%Q /\
  Forall (fun q => exists x : Z, q = inject_Z x /\ - 3 <= x <= 3
                                 /\ Z.even x = Z.even 3) [-1; 3; -1; 3]%Q.
Proof.
  assert (H : fst (pos_finales 3 4 w_ex) = Ok [-1; 3; -1; 3]%Q) by (vm_compute; reflexivity).
  split; [lia |]. split; [exact H |].
  exact (pos_finales_entries 3 4 w_ex _ ltac:(lia) H).
Defined.

Lemma trials_app (w : World) (n a b : nat) :
  trials w n (a + b) = trials w n a ++ trials (advance a w) n b.
Proof.
  unfold trials. rewrite seq_app, map_app. f_equal.
  cbn [Nat.add]. rewrite <- (Nat.add_0_r a) at 1.
  rewrite <- fmap_add_seq.
  change (map (trial w n) ((Nat.add a) <$> seq 0 b))
    with (map (trial w n) (map (Nat.add a) (seq 0 b))).
  rewrite List.map_map. apply List.map_ext. intros i. by rewrite trial_advance.
Qed.

(** X5: [runs1 + runs2] trials are [runs1] trials followed by [runs2]
    trials: the array of one call of [pos_finales] is the array of two
    calls in sequence, joined, and the world after it is the same. *)
Theorem pos_finales_splits (n_pasos runs1 runs2 : Z) (w : World) :
  1 <= n_pasos -> 0 <= runs1 -> 0 <= runs2 ->
  exists (finales1 finales2 : list Q) (w1 w2 : World),
    pos_finales n_pasos runs1 w = (Ok finales1, w1) /\
    pos_finales n_pasos runs2 w1 = (Ok finales2, w2) /\
    pos_finales n_pasos (runs1 + runs2) w = (Ok (finales1 ++ finales2), w2).
Proof.
  intros Hn H1 H2. eexists _, _, _, _.
  split; [by apply pos_finales_spec |].
  split; [by apply pos_finales_spec |].
  rewrite pos_finales_spec by lia.
  rewrite Z2Nat.inj_add, trials_app, advance_advance by lia. reflexivity.
Qed.

Lemma pos_finales_splits_witness :
  1 <= 3 /\ 0 <= 1 /\ 0 <= 2 /\
  exists (finales1 finales2 : list Q) (w1 w2 : World),
    pos_finales 3 1 w_ex = (Ok finales1, w1) /\
    pos_finales 3 2 w1 = (Ok finales2, w2) /\
    pos_finales 3 (1 + 2) w_ex = (Ok (finales1 ++ finales2), w2).
Proof.
  split; [lia |]. split; [lia |]. split; [lia |].
  apply (pos_finales_splits 3 1 2 w_ex); lia.
Defined.

(** ** The law of the final position *)

Lemma sumZ_app (l1 l2 : list Z) : sumZ (l1 ++ l2) = sumZ l1 + sumZ l2.
Proof. induction l1 as [|x l1 IH]; unfold sumZ in *; simpl; lia. Qed.

Lemma sumZ_map_add {A} (g h : A -> Z) (l : list A) :
  sumZ (map (fun i => g i + h i) l) = sumZ (map g l) + sumZ (map h l).
Proof. induction l as [|i l IH]; unfold sumZ in *; simpl; lia. Qed.

Lemma sumZ_map_affine {A} (a c : Z) (g : A -> Z) (l : list A) :
  sumZ (map (fun i => a * g i + c) l) = a * sumZ (map g l) + c * Z.of_nat (length l).
Proof. induction l as [|i l IH]; unfold sumZ in *; simpl length; simpl; lia. Qed.

Lemma final_of_draw_cons (b : nat) (idx : list nat) :
  final_of_draw (b :: idx) = nth b [- step_length; step_length] 0 + final_of_draw idx.
Proof. reflexivity. Qed.

Lemma sum_over_draws_S (f : Z -> Z) (n : nat) :
  sum_over_draws f (S n)
  = sum_over_draws (fun x => f (-1 + x) + f (1 + x)) n.
Proof.
  unfold sum_over_draws. rewrite index_draws_2_S, map_app, sumZ_app.
  rewrite !List.map_map, sumZ_map_add. reflexivity.
Qed.

Lemma sum_over_draws_ext (f g : Z -> Z) (n : nat) :
  (forall x, f x = g x) -> sum_over_draws f n = sum_over_draws g n.
Proof.
  intros H. unfold sum_over_draws. f_equal. apply List.map_ext. intros idx. apply H.
Qed.

Lemma sum_over_draws_affine (a c : Z) (g : Z -> Z) (n : nat) :
  sum_over_draws (fun x => a * g x + c) n = a * sum_over_draws g n + c * 2 ^ Z.of_nat n.
Proof.
  unfold sum_over_draws.
  rewrite (sumZ_map_affine a c (fun idx => g (final_of_draw idx))).
  rewrite index_draws_2_length, Nat2Z.inj_pow. reflexivity.
Qed.

Lemma sum_of_finals (n : nat) : sum_over_draws (fun x => x) n = 0.
Proof.
  induction n as [|n IH]; [reflexivity |].
  rewrite sum_over_draws_S.
  rewrite (sum_over_draws_ext _ (fun x => 2 * x + 0)) by (intros x; lia).
  rewrite sum_over_draws_affine, IH. lia.
Qed.

Lemma sum_of_squared_finals (n : nat) :
  sum_over_draws (fun x => x * x) n = Z.of_nat n * 2 ^ Z.of_nat n.
Proof.
  induction n as [|n IH]; [reflexivity |].
  rewrite sum_over_draws_S.
  rewrite (sum_over_draws_ext _ (fun x => 2 * (x * x) + 2)) by (intros x; lia).
  rewrite sum_over_draws_affine, IH.
  rewrite Nat2Z.inj_succ, Z.pow_succ_r by lia. lia.
Qed.

(** X6: over the [2 ^ n] equally likely index arrays of an [n]-step
    walk, the final positions [marcha] can return add up to [0] and their
    squares to [n * 2 ^ n]: the final position has mean [0] and mean of
    squares [n]. *)
Theorem final_position_mean_and_variance (n : nat) (w : World) :
  sum_over_draws (fun x => x) n = 0 /\
  sum_over_draws (fun x => x * x) n = Z.of_nat n * 2 ^ Z.of_nat n /\
  Z.of_nat (length (index_draws 2 n)) = 2 ^ Z.of_nat n /\
  ((1 <= n)%nat ->
   exists idx, idx ∈ index_draws 2 n /\
               fst (marcha (Z.of_nat n) w) = Ok (final_of_draw idx)).
Proof.
  split; [apply sum_of_finals |]. split; [apply sum_of_squared_finals |].
  split; [by rewrite index_draws_2_length, Nat2Z.inj_pow |].
  intros Hn. eexists. split; [apply integers_in_draws |].
  rewrite marcha_spec, Nat2Z.id by lia. reflexivity.
Qed.

Lemma final_position_mean_and_variance_witness :
  (1 <= 3)%nat /\
  sum_over_draws (fun x => x * x) 3 = 24 /\
  exists idx, idx ∈ index_draws 2 3 /\ fst (marcha 3 w_ex) = Ok (final_of_draw idx).
Proof.
  destruct (final_position_mean_and_variance 3 w_ex) as (_ & Hsq & _ & Hm).
  split; [lia |]. split; [exact Hsq |]. apply Hm. lia.
Defined.

Lemma filter_final_cons (b : nat) (v : Z) (D : list (list nat)) :
  length (filter (fun idx => final_of_draw idx = v) (map (cons b) D))
  = length (filter (fun idx => final_of_draw idx
                               = v - nth b [- step_length; step_length] 0) D).
Proof.
  induction D as [|d D IH]; [done |].
  cbn [map]. rewrite !filter_cons, final_of_draw_cons.
  destruct (decide (final_of_draw d = v - nth b [- step_length; step_length] 0)).
  - rewrite decide_True by lia. cbn [length]. by rewrite IH.
  - rewrite decide_False by lia. exact IH.
Qed.

(** One more step: the walk ends at [v] when it was at [v + 1] and steps
    down, or at [v - 1] and steps up. *)
Lemma draws_ending_at_S (v : Z) (n : nat) :
  draws_ending_at v (S n)
  = (draws_ending_at (v + 1) n + draws_ending_at (v - 1) n)%nat.
Proof.
  unfold draws_ending_at.
  rewrite index_draws_2_S, filter_app, length_app, !filter_final_cons.
  cbn [nth]. unfold step_length.
  replace (v - - (1)) with (v + 1) by lia. reflexivity.
Qed.

Lemma draws_ending_at_outside (n : nat) (v : Z) :
  v < - Z.of_nat n \/ Z.of_nat n < v -> draws_ending_at v n = 0%nat.
Proof.
  revert v. induction n as [|n IH]; intros v Hv.
  - unfold draws_ending_at. cbn [index_draws]. rewrite filter_cons_False; [done |].
    unfold final_of_draw, sumZ. simpl. lia.
  - rewrite draws_ending_at_S, !IH by lia. reflexivity.
Qed.

Lemma draws_ending_at_symmetric (n : nat) (v : Z) :
  draws_ending_at (- v) n = draws_ending_at v n.
Proof.
  revert v. induction n as [|n IH]; intros v.
  - unfold draws_ending_at. cbn [index_draws].
    rewrite !filter_cons. unfold final_of_draw, sumZ. cbn [np.fancy_index map foldr].
    repeat case_decide; (done || lia).
  - rewrite !draws_ending_at_S.
    replace (- v + 1) with (- (v - 1)) by lia.
    replace (- v - 1) with (- (v + 1)) by lia.
    rewrite !IH. lia.
Qed.

Lemma choose_above (n k : nat) : (n < k)%nat -> choose n k = 0%nat.
Proof.
  revert k. induction n as [|n IH]; intros [|k] Hk; try lia; [reflexivity |].
  cbn [choose]. rewrite !IH by lia. reflexivity.
Qed.

Lemma choose_diag (n : nat) : choose n n = 1%nat.
Proof.
  induction n as [|n IH]; [reflexivity |].
  cbn [choose]. rewrite IH, choose_above by lia. reflexivity.
Qed.

(** [choose] is the binomial coefficient. *)
Lemma choose_fact (n k : nat) :
  (k <= n)%nat -> (choose n k * fact k * fact (n - k) = fact n)%nat.
Proof.
  revert k. induction n as [|n IH]; intros k Hk.
  - assert (k = 0)%nat as -> by lia. reflexivity.
  - destruct k as [|k].
    + cbn [choose]. rewrite Nat.sub_0_r. simpl fact at 1. lia.
    + cbn [choose]. destruct (decide (k = n)) as [-> | Hne].
      * rewrite choose_diag, choose_above, Nat.sub_diag by lia. simpl fact at 2. lia.
      * pose proof (IH k ltac:(lia)) as H1.
        pose proof (IH (S k) ltac:(lia)) as H2.
        replace (S n - S k)%nat with (n - k)%nat by lia.
        replace (n - k)%nat with (S (n - S k)) in * by lia.
        change (fact (S n)) with (S n * fact n)%nat.
        change (fact (S k)) with (S k * fact k)%nat in *.
        change (fact (S (n - S k))) with (S (n - S k) * fact (n - S k))%nat in *.
        nia.
Qed.

Lemma draws_ending_at_choose (n k : nat) :
  draws_ending_at (2 * Z.of_nat k - Z.of_nat n) n = choose n k.
Proof.
  revert k. induction n as [|n IH]; intros k.
  - destruct k as [|k]; [reflexivity |].
    rewrite draws_ending_at_outside by lia. reflexivity.
  - rewrite draws_ending_at_S. destruct k as [|k].
    + replace (2 * Z.of_nat 0 - Z.of_nat (S n) + 1) with (2 * Z.of_nat 0 - Z.of_nat n) by lia.
      rewrite IH, draws_ending_at_outside by lia. by destruct n.
    + replace (2 * Z.of_nat (S k) - Z.of_nat (S n) + 1)
        with (2 * Z.of_nat (S k) - Z.of_nat n) by lia.
      replace (2 * Z.of_nat (S k) - Z.of_nat (S n) - 1)
        with (2 * Z.of_nat k - Z.of_nat n) by lia.
      rewrite !IH. cbn [choose]. lia.
Qed.

(** X7: the final position is binomial: of the [2 ^ n] index arrays of an
    [n]-step walk, [choose n k] end at [2 k - n] (with
    [choose n k * k! * (n - k)! = n!]), none ends beyond [-n] or [n], and
    as many end at [-v] as at [v]. *)
Theorem final_position_is_binomial (n k : nat) (v : Z) :
  draws_ending_at (2 * Z.of_nat k - Z.of_nat n) n = choose n k /\
  ((k <= n)%nat -> (choose n k * fact k * fact (n - k) = fact n)%nat) /\
  (v < - Z.of_nat n \/ Z.of_nat n < v -> draws_ending_at v n = 0%nat) /\
  draws_ending_at (- v) n = draws_ending_at v n.
Proof.
  split; [apply draws_ending_at_choose |].
  split; [apply choose_fact |].
  split; [apply draws_ending_at_outside | apply draws_ending_at_symmetric].
Qed.

Lemma final_position_is_binomial_witness :
  (2 <= 4)%nat /\ (5 < - Z.of_nat 4 \/ Z.of_nat 4 < 5) /\
  draws_ending_at 0 4 = 6%nat /\
  (choose 4 2 * fact 2 * fact (4 - 2) = fact 4)%nat /\
  draws_ending_at 5 4 = 0%nat.
Proof.
  destruct (final_position_is_binomial 4 2 5) as (Hc & Hf & Ho & _).
  split; [lia |]. split; [right; simpl; lia |].
  split; [exact Hc |]. split; [apply Hf; lia |]. apply Ho. right. simpl. lia.
Defined.

(** ** Where [histograma] fails *)

Lemma histograma_negative (posi_finales : list Q) (n_pasos bins : Z) (w : World) :
  n_pasos < 0 -> histograma posi_finales n_pasos bins w = (Raise ValueError, w).
Proof.
  intros Hn. unfold histograma.
  rewrite math_sqrt_negative by (apply (IZR_lt _ 0); lia). reflexivity.
Qed.

Lemma histograma_no_bins (posi_finales : list Q) (n_pasos bins : Z) (w : World) :
  0 <= n_pasos -> bins <= 0 ->
  histograma posi_finales n_pasos bins w = (Raise ValueError, drawn_on w [PltFigure]).
Proof.
  intros Hn Hb. unfold histograma. unfold_plt.
  rewrite math_sqrt_ok by (apply (IZR_le 0); lia).
  rewrite bind_lift_ok, bind_draw. unfold plt.hist.
  destruct (Z.leb_spec bins 0); [reflexivity | lia].
Qed.

Lemma histograma_zero_steps (posi_finales : list Q) (bins : Z) (w : World) :
  posi_finales <> [] -> 0 < bins ->
  histograma posi_finales 0 bins w
  = (Raise ZeroDivisionError,
     drawn_on w [PltFigure; PltHist posi_finales bins true (6 # 10) "Programa"]).
Proof.
  intros Hx Hb.
  destruct (py_min_spec _ Hx) as (lo & Hlo & _).
  destruct (py_max_spec _ Hx) as (hi & Hhi & _).
  unfold histograma, math.pi. unfold_plt.
  rewrite math_sqrt_ok by lra.
  rewrite bind_lift_ok, bind_draw, plt_hist_ok, bind_draw by done.
  rewrite Hlo, bind_lift_ok, Hhi, bind_lift_ok.
  unfold py.float_div.
  destruct (Req_dec_T _ 0) as [_ | Hne].
  - rewrite bind_lift_raise, drawn_on_drawn_on. reflexivity.
  - exfalso. apply Hne. rewrite sqrt_0. ring.
Qed.

(** X8: [histograma] returns only when the data are not empty,
    [n_pasos >= 1] and [bins > 0].  A negative [n_pasos] (within the
    [float64] range) is a [ValueError] of [math.sqrt] before anything is
    drawn; [bins <= 0] a [ValueError] once the figure is open; with
    data and a modest number of bins, [n_pasos = 0] is a
    [ZeroDivisionError] (sigma is zero) after the histogram was drawn
    and before the curve is. *)
Theorem histograma_needs_data_and_steps
    (posi_finales : list Q) (n_pasos bins : Z) (w : World) :
  (fst (histograma posi_finales n_pasos bins w) = Ok tt ->
   posi_finales <> [] /\ 1 <= n_pasos /\ 0 < bins) /\
  (- py.float_int_max <= n_pasos < 0 ->
   histograma posi_finales n_pasos bins w = (Raise ValueError, w)) /\
  (0 <= n_pasos <= py.float_int_max -> bins <= 0 ->
   histograma posi_finales n_pasos bins w
   = (Raise ValueError, drawn_on w [PltFigure])) /\
  (n_pasos = 0 -> 0 < bins <= np.modest_size -> posi_finales <> [] ->
   histograma posi_finales n_pasos bins w
   = (Raise ZeroDivisionError,
      drawn_on w [PltFigure; PltHist posi_finales bins true (6 # 10) "Programa"])).
Proof.
  split; [| split; [| split]].
  - intros Hok.
    destruct (Z.lt_trichotomy n_pasos 0) as [Hn | [-> | Hn]].
    + by rewrite histograma_negative in Hok.
    + destruct (Z.leb_spec bins 0) as [Hb | Hb].
      * by rewrite histograma_no_bins in Hok.
      * destruct posi_finales as [|q l].
        -- by rewrite histograma_empty in Hok.
        -- by rewrite histograma_zero_steps in Hok.
    + destruct (Z.leb_spec bins 0) as [Hb | Hb].
      * by rewrite histograma_no_bins in Hok by lia.
      * destruct posi_finales as [|q l]; [by rewrite histograma_empty in Hok |].
        split; [done | lia].
  - intros [_ Hn]. by apply histograma_negative.
  - intros [Hn _] Hb. by apply histograma_no_bins.
  - intros -> [Hb _] Hx. by apply histograma_zero_steps.
Qed.

Lemma histograma_needs_data_and_steps_witness :
  0 = 0 /\ 0 < 50 <= np.modest_size /\ [1; -1]%Q <> [] /\
  - py.float_int_max <= -2 < 0 /\
  0 <= 4 <= py.float_int_max /\ 0 <= 0 /\
  histograma [1; -1]%Q 0 50 w_ex
  = (Raise ZeroDivisionError,
     drawn_on w_ex [PltFigure; PltHist [1; -1]%Q 50 true (6 # 10) "Programa"]) /\
  histograma [1; -1]%Q (-2) 50 w_ex = (Raise ValueError, w_ex) /\
  histograma [1; -1]%Q 4 0 w_ex = (Raise ValueError, drawn_on w_ex [PltFigure]).
Proof.
  assert (H2 : - py.float_int_max <= -2 < 0) by (unfold py.float_int_max; lia).
  assert (H4 : 0 <= 4 <= py.float_int_max) by (unfold py.float_int_max; lia).
  destruct (histograma_needs_data_and_steps [1; -1]%Q 0 50 w_ex) as (_ & _ & _ & Hz).
  destruct (histograma_needs_data_and_steps [1; -1]%Q (-2) 50 w_ex) as (_ & Hneg & _).
  destruct (histograma_needs_data_and_steps [1; -1]%Q 4 0 w_ex) as (_ & _ & Hb & _).
  assert (H50 : 0 < 50 <= np.modest_size) by (unfold np.modest_size; lia).
  split; [reflexivity |]. split; [exact H50 |]. split; [discriminate |].
  split; [exact H2 |]. split; [exact H4 |]. split; [lia |].
  split; [apply Hz; [reflexivity | exact H50 | discriminate] |].
  split; [apply Hneg; exact H2 | apply Hb; [exact H4 | lia]].
Defined.

(** ** The curve [histograma] overlays *)

Lemma exp_nonpos_le_1 (t : R) : (t <= 0)%R -> (exp t <= 1)%R.
Proof.
  intros Ht. rewrite <- exp_0. destruct Ht as [Hlt | ->]; [| lra].
  left. by apply exp_increasing.
Qed.

Lemma normal_pdf_bounds (sigma x : R) :
  (0 < sigma)%R ->
  (0 < normal_pdf sigma x <= 1 / (sqrt (2 * PI) * sigma))%R
  /\ normal_pdf sigma (- x) = normal_pdf sigma x.
Proof.
  intros Hs. unfold normal_pdf.
  pose proof sqrt_2PI_pos as Hp.
  assert (Hc : (0 < 1 / (sqrt (2 * PI) * sigma))%R).
  { apply Rdiv_lt_0_compat; [lra | nra]. }
  pose proof (exp_pos (- x ^ 2 / (2 * sigma ^ 2))) as He.
  assert (Harg : (- x ^ 2 / (2 * sigma ^ 2) <= 0)%R).
  { assert (Hi : (0 < / (2 * sigma ^ 2))%R) by (apply Rinv_0_lt_compat; nra).
    unfold Rdiv. pose proof (pow2_ge_0 x). nra. }
  pose proof (exp_nonpos_le_1 _ Harg) as He1.
  split; [split; nra |].
  do 2 f_equal. field. lra.
Qed.

(** X9: with data and [n_pasos >= 1] (within the [float64] range), the
    curve [histograma] plots has 500 points, and no value of it is
    negative or above the peak of the normal density,
    [1 / (sqrt (2 pi) * sqrt n_pasos)]. *)
Theorem histograma_curve_bounds (posi_finales : list Q) (n_pasos : Z) (w : World) :
  posi_finales <> [] -> 1 <= n_pasos <= py.float_int_max ->
  exists xs ys : list R,
    In (PltPlotR xs ys "TCL")
       (figures (snd (histograma posi_finales n_pasos bins_default w))) /\
    length xs = 500%nat /\ length ys = 500%nat /\
    Forall (fun y => 0 <= y <= 1 / (sqrt (2 * PI) * sqrt (IZR n_pasos)))%R ys.
Proof.
  intros Hx [Hn _].
  destruct (py_min_spec _ Hx) as (lo & Hlo & _).
  destruct (py_max_spec _ Hx) as (hi & Hhi & _).
  rewrite (histograma_spec _ _ _ w lo hi) by done.
  eexists _, _. split.
  { cbn [snd drawn_on figures]. apply in_or_app. right. right. right. left.
    reflexivity. }
  rewrite !length_map, linspace_length. split; [done |]. split; [done |].
  rewrite Forall_map. apply Forall_forall. intros xi _.
  destruct (normal_pdf_bounds (sqrt (IZR n_pasos)) (Q2R xi)) as [[Hpos Hle] _].
  { apply sqrt_lt_R0, (IZR_lt 0). lia. }
  split; [by apply Rlt_le | exact Hle].
Qed.

Lemma histograma_curve_bounds_witness :
  [1; -1; 3]%Q <> [] /\ 1 <= 3 <= py.float_int_max /\
  exists xs ys : list R,
    In (PltPlotR xs ys "TCL")
       (figures (snd (histograma [1; -1; 3]%Q 3 bins_default w_ex))) /\
    length xs = 500%nat /\ length ys = 500%nat /\
    Forall (fun y => 0 <= y <= 1 / (sqrt (2 * PI) * sqrt (IZR 3)))%R ys.
Proof.
  assert (H3 : 1 <= 3 <= py.float_int_max) by (unfold py.float_int_max; lia).
  split; [discriminate |]. split; [exact H3 |].
  apply (histograma_curve_bounds [1; -1; 3]%Q 3 w_ex); [discriminate | exact H3].
Defined.

(** ** The moments of [momentos_vs_N] *)

Local Open Scope Q_scope.

Lemma sumQ_bounds (lo hi : Q) (l : list Q) :
  Forall (fun q => lo <= q <= hi) l ->
  lo * inject_Z (Z.of_nat (length l)) <= sumQ l <= hi * inject_Z (Z.of_nat (length l)).
Proof.
  induction 1 as [|q l Hq _ IH].
  - change (inject_Z (Z.of_nat (length (@nil Q)))) with 0%Q.
    change (sumQ []) with 0%Q. lra.
  - rewrite sumQ_cons, inject_length_cons. lra.
Qed.

Lemma mean_bounds (lo hi : Q) (l : list Q) :
  l <> [] -> Forall (fun q => lo <= q <= hi) l ->
  exists u, np.mean l = Fin u /\ lo <= u <= hi.
Proof.
  intros Hl Hall. pose proof (inject_length_pos l Hl) as Hn.
  pose proof (sumQ_bounds lo hi l Hall) as Hs.
  destruct l as [|q l]; [done |]. eexists. split; [reflexivity |].
  set (n := inject_Z (Z.of_nat (length (q :: l)))) in *.
  split.
  - apply Qle_shift_div_l; [done | lra].
  - apply Qle_shift_div_r; [done | lra].
Qed.

Lemma trials_entries (w : World) (n runs : nat) :
  Forall (fun q => exists x : Z, q = inject_Z x
                   /\ (- Z.of_nat n <= x <= Z.of_nat n)%Z
                   /\ Z.even x = Z.even (Z.of_nat n))
         (trials w n runs).
Proof.
  unfold trials. rewrite Forall_map. apply Forall_forall. intros i _.
  eexists. split; [reflexivity |]. apply final_of_range_parity.
Qed.

Lemma trials_bounded (w : World) (n runs : nat) :
  Forall (fun q => - inject_Z (Z.of_nat n) <= q <= inject_Z (Z.of_nat n))
         (trials w n runs).
Proof.
  eapply Forall_impl; [apply trials_entries |]. cbv beta.
  intros q (x & -> & Hx & _).
  rewrite <- inject_Z_opp, <- !Zle_Qle. lia.
Qed.

Lemma squares_bounded (b : Q) (l : list Q) :
  Forall (fun q => - b <= q <= b) l ->
  Forall (fun q => 0 <= q <= b * b) (np.squares l).
Proof.
  intros H. unfold np.squares. rewrite Forall_map.
  eapply Forall_impl; [exact H |]. cbv beta. intros q Hq. nra.
Qed.

(** A one-step walk ends at [-1] or [1]: its square is [1]. *)
Lemma trials_one_step_squares (w : World) (runs : nat) :
  Forall (fun q => q == 1) (np.squares (trials w 1 runs)).
Proof.
  unfold np.squares. rewrite Forall_map.
  eapply Forall_impl; [apply trials_entries |]. cbv beta.
  intros q (x & -> & Hx & Hp). change (Z.even (Z.of_nat 1)) with false in Hp.
  assert (x = -1 \/ x = 1)%Z as [-> | ->]; [| reflexivity | reflexivity].
  assert (x <> 0)%Z by (intros ->; discriminate). lia.
Qed.

(** A walk of an odd number of steps ends away from [0]: its square is
    at least [1]. *)
Lemma trials_odd_squares (w : World) (n runs : nat) :
  Z.odd (Z.of_nat n) = true ->
  Forall (fun q => 1 <= q) (np.squares (trials w n runs)).
Proof.
  intros Hodd. unfold np.squares. rewrite Forall_map.
  eapply Forall_impl; [apply trials_entries |]. cbv beta.
  intros q (x & -> & _ & Hp).
  rewrite <- (Z.negb_odd (Z.of_nat n)), Hodd in Hp. cbn [negb] in Hp.
  assert (Hx : (x <> 0)%Z) by (intros ->; discriminate).
  rewrite <- inject_Z_mult. change 1 with (inject_Z 1). rewrite <- Zle_Qle. nia.
Qed.

Lemma sumQ_constant (c : Q) (l : list Q) :
  Forall (fun q => q == c) l -> sumQ l == c * inject_Z (Z.of_nat (length l)).
Proof.
  induction 1 as [|q l Hq _ IH].
  - change (inject_Z (Z.of_nat (length (@nil Q)))) with 0%Q.
    change (sumQ []) with 0%Q. ring.
  - rewrite sumQ_cons, inject_length_cons, IH, Hq. ring.
Qed.

Local Close Scope Q_scope.

(** X10: when [momentos_vs_N] returns (step counts at least 1, [runs]
    at least 1), the moments of the [i]-th [N] are finite, the mean lies
    in [[-N, N]], and the mean of squares in [[0, N * N]]; it is at
    least 1 when [N] is odd, and exactly 1 for [N = 1]. *)
Theorem momentos_moment_bounds
    (valores_N : list Z) (runs : Z) (w : World)
    (m1 m2 : list float64) (slope D : float64) :
  Forall (fun N => 1 <= N) valores_N -> 1 <= runs ->
  fst (momentos_vs_N valores_N runs w) = Ok (m1, m2, slope, D) ->
  forall (i : nat) (N : Z),
    valores_N !! i = Some N ->
    exists u v : Q,
      m1 !! i = Some (Fin u) /\ m2 !! i = Some (Fin v) /\
      (- inject_Z N <= u <= inject_Z N)%Q /\
      (0 <= v <= inject_Z N * inject_Z N)%Q /\
      (Z.odd N = true -> (1 <= v)%Q) /\
      (N = 1 -> (v == 1)%Q).
Proof.
  intros HN Hr Hm i N Hi.
  rewrite momentos_vs_N_spec in Hm by (done || lia).
  destruct (np.polyfit1 _ _) as [[s c] | e]; [| done].
  cbn [fst] in Hm. injection Hm as <- <- <- <-.
  pose proof (moments_of_lookup w valores_N (Z.to_nat runs) i N Hi) as Hl.
  change (map fst (moments_of w valores_N (Z.to_nat runs)))
    with (fst <$> moments_of w valores_N (Z.to_nat runs)).
  change (map snd (moments_of w valores_N (Z.to_nat runs)))
    with (snd <$> moments_of w valores_N (Z.to_nat runs)).
  rewrite !list_lookup_fmap, Hl. cbn [fmap option_fmap option_map fst snd].
  assert (HNi : 1 <= N).
  { rewrite Forall_forall in HN. apply HN. by eapply list_elem_of_lookup_2. }
  set (t := trials (advance (i * Z.to_nat runs) w) (Z.to_nat N) (Z.to_nat runs)).
  assert (Ht : t <> []).
  { intros E. apply (f_equal length) in E. unfold t in E.
    rewrite trials_length in E. simpl in E. lia. }
  assert (Hb : Forall (fun q => - inject_Z N <= q <= inject_Z N)%Q t).
  { pose proof (trials_bounded (advance (i * Z.to_nat runs) w)
                  (Z.to_nat N) (Z.to_nat runs)) as H.
    by rewrite Z2Nat.id in H by lia. }
  destruct t as [|q0 t0] eqn:Et; [done |]. rewrite <- Et in *.
  assert (Hlen : length (np.squares t) = length t)
    by (unfold np.squares; by rewrite length_map).
  assert (Hts : np.squares t <> []) by (rewrite Et; done).
  destruct (mean_bounds _ _ t Ht Hb) as (u & Hu & Hub).
  destruct (mean_bounds _ _ _ Hts (squares_bounded _ _ Hb)) as (v & Hv & Hvb).
  exists u, v. rewrite Hu, Hv. split; [done |]. split; [done |].
  split; [exact Hub |]. split; [exact Hvb |].
  assert (Ev : v = (sumQ (np.squares t) / inject_Z (Z.of_nat (length t)))%Q).
  { rewrite <- Hlen. destruct (np.squares t) as [|s0 ss]; [done |].
    unfold np.mean in Hv. by injection Hv as <-. }
  split.
  - intros Hodd.
    pose proof (trials_odd_squares (advance (i * Z.to_nat runs) w)
                  (Z.to_nat N) (Z.to_nat runs)) as H1.
    rewrite Z2Nat.id in H1 by lia. specialize (H1 Hodd). fold t in H1.
    assert (H1' : Forall (fun q => 1 <= q <= inject_Z N * inject_Z N)%Q (np.squares t)).
    { pose proof (squares_bounded _ _ Hb) as H2.
      rewrite Forall_forall in H1, H2 |- *. intros q Hq.
      split; [by apply H1 | by apply H2]. }
    destruct (mean_bounds _ _ _ Hts H1') as (v' & Hv' & Hvb').
    rewrite Hv in Hv'. injection Hv' as <-. apply Hvb'.
  - intros ->. rewrite Ev.
    pose proof (trials_one_step_squares (advance (i * Z.to_nat runs) w)
                  (Z.to_nat runs)) as H1.
    change (Z.to_nat 1) with 1%nat in t. fold t in H1.
    rewrite (sumQ_constant 1 _ H1), Hlen.
    pose proof (inject_length_pos t Ht). field. lra.
Qed.

Lemma momentos_moment_bounds_witness :
  Forall (fun N => 1 <= N) [1; 2] /\ 1 <= 2 /\
  fst (momentos_vs_N [1; 2] 2 w_ex)
  = Ok ([Fin (0 # 2); Fin (2 # 2)], [Fin (2 # 2); Fin (4 # 2)],
        Fin (16 # 16), Fin (16 # 32))%Q /\
  [1; 2] !! 0%nat = Some 1 /\
  exists u v : Q,
    [Fin (0 # 2); Fin (2 # 2)]%Q !! 0%nat = Some (Fin u) /\
    [Fin (2 # 2); Fin (4 # 2)]%Q !! 0%nat = Some (Fin v) /\
    (- inject_Z 1 <= u <= inject_Z 1)%Q /\
    (0 <= v <= inject_Z 1 * inject_Z 1)%Q /\
    (Z.odd 1 = true -> (1 <= v)%Q) /\
    (1 = 1 -> (v == 1)%Q).
Proof.
  assert (HN : Forall (fun N => 1 <= N) [1; 2]) by (repeat constructor; lia).
  assert (Hm : fst (momentos_vs_N [1; 2] 2 w_ex)
               = Ok ([Fin (0 # 2); Fin (2 # 2)], [Fin (2 # 2); Fin (4 # 2)],
                     Fin (16 # 16), Fin (16 # 32))%Q) by (vm_compute; reflexivity).
  split; [exact HN |]. split; [lia |]. split; [exact Hm |]. split; [reflexivity |].
  exact (momentos_moment_bounds [1; 2] 2 w_ex _ _ _ _ HN ltac:(lia) Hm 0%nat 1 eq_refl).
Defined.

(** ** Where [momentos_vs_N] fails *)

Lemma for_each_app {A S} (xs ys : list A) (body : A -> S -> M S) (s : S) (w : World) :
  for_each (xs ++ ys) body s w = (for_each xs body s ≫= for_each ys body) w.
Proof.
  revert s w. induction xs as [|x xs IH]; intros s w; [reflexivity |].
  cbn [app for_each]. unfold mbind, M_bind.
  destruct (body x s w) as [[s' | e] w']; [| reflexivity].
  rewrite IH. reflexivity.
Qed.

Lemma momentos_vs_N_empty (runs : Z) (w : World) :
  momentos_vs_N [] runs w = (Raise TypeError, w).
Proof. reflexivity. Qed.

Lemma momentos_loop_raises (N : Z) (rest : list Z) (runs : Z)
    (acc : list float64 * list float64) (w w' : World) (e : exn) :
  pos_finales N runs w = (Raise e, w') ->
  for_each (N :: rest)
    (fun N '(medios, medios_x2) =>
       finales ← pos_finales N runs;
       mret (medios ++ [np.mean finales],
             medios_x2 ++ [np.mean (np.squares finales)]))
    acc w
  = (Raise e, w').
Proof.
  intros H. cbn [for_each]. apply bind_raise. destruct acc as [medios medios_x2].
  by apply bind_raise.
Qed.

Lemma momentos_vs_N_negative_runs (N : Z) (rest : list Z) (runs : Z) (w : World) :
  runs < 0 -> momentos_vs_N (N :: rest) runs w = (Raise ValueError, w).
Proof.
  intros Hr. unfold momentos_vs_N. apply bind_raise.
  apply momentos_loop_raises. by apply pos_finales_negative_runs.
Qed.

Lemma momentos_vs_N_bad_N (good rest : list Z) (N runs : Z) (w : World) :
  1 <= runs -> Forall (fun N => 1 <= N) good -> N <= 0 ->
  momentos_vs_N (good ++ N :: rest) runs w
  = (Raise (if N =? 0 then IndexError else ValueError),
     seeded (advance (length good * Z.to_nat runs) w)).
Proof.
  intros Hr Hgood HN. unfold momentos_vs_N. apply bind_raise.
  rewrite for_each_app.
  rewrite (bind_ok _ _ _ _ _ (momentos_loop good runs [] [] w Hgood ltac:(lia))).
  apply momentos_loop_raises. apply pos_finales_first_fails; [done |].
  destruct (Z.eqb_spec N 0) as [-> | Hne].
  - by rewrite marcha_zero.
  - by rewrite marcha_negative by lia.
Qed.

Lemma first_bad_N (l : list Z) :
  ~ Forall (fun N => 1 <= N) l ->
  exists good N rest, l = good ++ N :: rest
                      /\ Forall (fun N => 1 <= N) good /\ N <= 0.
Proof.
  induction l as [|N l IH]; intros H; [by destruct H |].
  destruct (Z_le_gt_dec 1 N) as [HN | HN].
  - destruct IH as (good & N' & rest & -> & Hg & HN').
    { intros Hl. apply H. by constructor. }
    exists (N :: good), N', rest. split; [done |]. split; [by constructor | done].
  - exists [], N, l. split; [done |]. split; [constructor | lia].
Qed.

(** X11: with [runs >= 1], [momentos_vs_N] returns only when the list is
    not empty and every step count is at least 1.  An empty list is a
    [TypeError] of the fit, with no seed taken and nothing drawn; a
    negative [runs] with a non-empty list is a [ValueError]; the first
    step count below 1 stops the loop with [IndexError] (zero) or
    [ValueError] (negative), after the walks of the step counts before it
    and before any figure.  Negative numbers are taken within numpy's
    index type, and the walks that are made are of modest size. *)
Theorem momentos_vs_N_needs_steps
    (valores_N good rest : list Z) (N runs : Z) (w : World) :
  (1 <= runs ->
   forall r, fst (momentos_vs_N valores_N runs w) = Ok r ->
             valores_N <> [] /\ Forall (fun N => 1 <= N) valores_N) /\
  momentos_vs_N [] runs w = (Raise TypeError, w) /\
  (np.intp_min <= runs < 0 -> valores_N <> [] ->
   momentos_vs_N valores_N runs w = (Raise ValueError, w)) /\
  (1 <= runs <= np.modest_size ->
   Forall (fun N => 1 <= N <= np.modest_size) good -> np.intp_min <= N <= 0 ->
   momentos_vs_N (good ++ N :: rest) runs w
   = (Raise (if N =? 0 then IndexError else ValueError),
      seeded (advance (length good * Z.to_nat runs) w))).
Proof.
  split; [| split; [reflexivity | split]].
  - intros Hr r Hok. split.
    + intros ->. by rewrite momentos_vs_N_empty in Hok.
    + destruct (Forall_dec (fun N => 1 <= N) valores_N) as [Hall | Hbad]; [done |].
      destruct (first_bad_N _ Hbad) as (g & N' & rs & -> & Hg & HN').
      by rewrite momentos_vs_N_bad_N in Hok.
  - intros [_ Hr] Hne. destruct valores_N as [|N0 l]; [done |].
    by apply momentos_vs_N_negative_runs.
  - intros [Hr _] Hg [_ HN]. apply momentos_vs_N_bad_N; [done | | done].
    eapply Forall_impl; [exact Hg |]. cbv beta. lia.
Qed.

Lemma momentos_vs_N_needs_steps_witness :
  1 <= 2 <= np.modest_size /\ Forall (fun N => 1 <= N <= np.modest_size) [3] /\
  np.intp_min <= 0 <= 0 /\
  np.intp_min <= -1 < 0 /\ [1; 2] <> [] /\
  momentos_vs_N ([3] ++ 0 :: [5]) 2 w_ex
  = (Raise IndexError, seeded (advance (length [3] * Z.to_nat 2) w_ex)) /\
  momentos_vs_N [1; 2] (-1) w_ex = (Raise ValueError, w_ex) /\
  exists r, fst (momentos_vs_N [1; 2] 2 w_ex) = Ok r /\
            [1; 2] <> [] /\ Forall (fun N => 1 <= N) [1; 2].
Proof.
  assert (H2 : 1 <= 2 <= np.modest_size) by (unfold np.modest_size; lia).
  assert (H3 : Forall (fun N => 1 <= N <= np.modest_size) [3])
    by (repeat constructor; unfold np.modest_size; lia).
  assert (H0 : np.intp_min <= 0 <= 0) by (unfold np.intp_min; lia).
  assert (H1 : np.intp_min <= -1 < 0) by (unfold np.intp_min; lia).
  assert (Hne : [1; 2] <> []) by discriminate.
  assert (Hok : fst (momentos_vs_N [1; 2] 2 w_ex)
                = Ok ([Fin (0 # 2); Fin (2 # 2)], [Fin (2 # 2); Fin (4 # 2)],
                      Fin (16 # 16), Fin (16 # 32))%Q) by (vm_compute; reflexivity).
  destruct (momentos_vs_N_needs_steps [1; 2] [3] [5] 0 2 w_ex) as (Hnec & _ & _ & Hbad).
  destruct (momentos_vs_N_needs_steps [1; 2] [3] [5] 0 (-1) w_ex) as (_ & _ & Hneg & _).
  split; [exact H2 |]. split; [exact H3 |]. split; [exact H0 |]. split; [exact H1 |].
  split; [exact Hne |].
  split; [exact (Hbad H2 H3 H0) |].
  split; [exact (Hneg H1 Hne) |].
  eexists. split; [exact Hok |]. exact (Hnec ltac:(lia) _ Hok).
Defined.

(** ** No runs *)

Lemma momentos_loop_no_runs (valores_N : list Z) (acc1 acc2 : list float64) (w : World) :
  for_each valores_N
    (fun N '(medios, medios_x2) =>
       finales ← pos_finales N 0;
       mret (medios ++ [np.mean finales], medios_x2 ++ [np.mean (np.squares finales)]))
    (acc1, acc2) w
  = (Ok (acc1 ++ map (fun _ => NaN) valores_N, acc2 ++ map (fun _ => NaN) valores_N), w).
Proof.
  revert acc1 acc2. induction valores_N as [|N rest IH]; intros acc1 acc2.
  - cbn [for_each map]. by rewrite !app_nil_r.
  - cbn [for_each]. unfold mbind at 1, M_bind at 1.
    rewrite (bind_ok _ _ _ _ _ (pos_finales_no_runs N w)).
    unfold mret, M_ret. rewrite IH. cbn [map np.squares np.mean].
    by rewrite <- !app_assoc.
Qed.

Lemma dotQ_zero_all_zero (l : list Q) :
  (dotQ l l == 0)%Q -> Forall (fun v => (v == 0)%Q) l.
Proof.
  induction l as [|v l IH]; intros Hd; [constructor |].
  rewrite dotQ_cons in Hd.
  assert (Hl : (0 <= dotQ l l)%Q).
  { clear. induction l as [|u l IH]; [apply Qle_refl |]. rewrite dotQ_cons. nra. }
  constructor; [nra | apply IH; nra].
Qed.

Lemma N_arr_not_all_zero (valores_N : list Z) :
  Exists (fun N => N <> 0) valores_N ->
  ~ (dotQ (map inject_Z valores_N) (map inject_Z valores_N) == 0)%Q.
Proof.
  intros Hex E. apply dotQ_zero_all_zero in E. rewrite Forall_map in E.
  apply Exists_exists in Hex as (N & HN & HN0).
  rewrite Forall_forall in E. specialize (E N HN). cbv beta in E.
  apply HN0. unfold Qeq in E. simpl in E. lia.
Qed.

(** X17: with [runs = 0] nothing is walked and nothing fails: for a
    list with a step count other than 0 (any numbers, within the
    [float64] range), [momentos_vs_N] returns [nan] for every moment,
    for the slope and for [D], takes no seed, and draws its figure with
    them. *)
Theorem momentos_vs_N_no_runs_gives_nan (valores_N : list Z) (w : World) :
  Exists (fun N => N <> 0) valores_N ->
  Forall (fun N => - py.float_int_max <= N <= py.float_int_max) valores_N ->
  let nans := map (fun _ => NaN) valores_N in
  momentos_vs_N valores_N 0 w
  = (Ok (nans, nans, NaN, NaN),
     drawn_on w (momentos_figure (map inject_Z valores_N) nans NaN NaN)).
Proof.
  intros Hex _. cbv zeta. unfold momentos_vs_N. unfold_plt.
  rewrite (bind_ok _ _ _ _ _ (momentos_loop_no_runs valores_N [] [] w)).
  cbn [app].
  assert (Hpoly : np.polyfit1 (map inject_Z valores_N) (map (fun _ => NaN) valores_N)
                  = Ok (NaN, NaN)).
  { pose proof (N_arr_not_all_zero _ Hex) as Hnz.
    unfold np.polyfit1. rewrite !length_map, Nat.eqb_refl.
    destruct (Qeq_bool _ 0) eqn:E; [by apply Qeq_bool_true_eq in E |].
    destruct valores_N as [|N0 rest]; [by apply Exists_nil in Hex |].
    reflexivity. }
  rewrite Hpoly, bind_lift_ok, !bind_draw, !drawn_on_drawn_on. reflexivity.
Qed.

Lemma momentos_vs_N_no_runs_gives_nan_witness :
  Exists (fun N => N <> 0) [100; 300] /\
  Forall (fun N => - py.float_int_max <= N <= py.float_int_max) [100; 300] /\
  fst (momentos_vs_N [100; 300] 0 w_ex) = Ok ([NaN; NaN], [NaN; NaN], NaN, NaN).
Proof.
  assert (Hex : Exists (fun N => N <> 0) [100; 300]) by (constructor; lia).
  assert (Hall : Forall (fun N => - py.float_int_max <= N <= py.float_int_max) [100; 300])
    by (repeat constructor; unfold py.float_int_max; lia).
  split; [exact Hex |]. split; [exact Hall |].
  by rewrite (momentos_vs_N_no_runs_gives_nan [100; 300] w_ex Hex Hall).
Defined.

(** ** The menu loop as a whole *)

Lemma extends_refl (w : World) : extends w w.
Proof. repeat split; done. Qed.

Lemma extends_trans (w1 w2 w3 : World) : extends w1 w2 -> extends w2 w3 -> extends w1 w3.
Proof.
  intros (He & Hr & Hf & Ho) (He' & Hr' & Hf' & Ho').
  split; [congruence |]. split; [lia |].
  split; etransitivity; eassumption.
Qed.

Lemma extends_seeded (w : World) : extends w (seeded w).
Proof. repeat split; cbn; (done || lia). Qed.

Lemma extends_drawn_on (w : World) (cmds : list plt_cmd) : extends w (drawn_on w cmds).
Proof. repeat split; cbn; (done || lia || by apply prefix_app_r). Qed.

Lemma extends_written_on (w : World) (outs : list out) : extends w (written_on w outs).
Proof. repeat split; cbn; (done || lia || by apply prefix_app_r). Qed.

Lemma monotone_ret {A} (a : A) : monotone (mret a).
Proof. intros w. apply extends_refl. Qed.

Lemma monotone_raise {A} (e : exn) : monotone (raise e : M A).
Proof. intros w. apply extends_refl. Qed.

Lemma monotone_lift {A} (r : result A) : monotone (lift r).
Proof. intros w. apply extends_refl. Qed.

Lemma monotone_draw (c : plt_cmd) : monotone (draw c).
Proof. intros w. apply extends_drawn_on. Qed.

Lemma monotone_print (o : out) : monotone (print o).
Proof. intros w. apply extends_written_on. Qed.

Lemma monotone_bind {A C} (m : M A) (k : A -> M C) :
  monotone m -> (forall a, monotone (k a)) -> monotone (m ≫= k).
Proof.
  intros Hm Hk w. unfold mbind, M_bind. specialize (Hm w).
  destruct (m w) as [[a | e] w1]; cbn [snd] in *; [| done].
  eapply extends_trans; [exact Hm | apply Hk].
Qed.

Lemma monotone_for_each {A S} (xs : list A) (body : A -> S -> M S) (s : S) :
  (forall x s, monotone (body x s)) -> monotone (for_each xs body s).
Proof.
  intros Hbody. revert s. induction xs as [|x xs IH]; intros s; cbn [for_each].
  - apply monotone_ret.
  - apply monotone_bind; [apply Hbody | exact IH].
Qed.

Lemma monotone_marcha (n_pasos : Z) : monotone (marcha n_pasos).
Proof. intros w. rewrite marcha_world. apply extends_seeded. Qed.

Lemma monotone_pos_finales (n_pasos runs : Z) : monotone (pos_finales n_pasos runs).
Proof.
  unfold pos_finales. apply monotone_bind; [apply monotone_lift |].
  intros finales. apply monotone_for_each. intros i fin.
  apply monotone_bind; [apply monotone_marcha | intros x; apply monotone_lift].
Qed.

(** Steps of a proof that a computation of the script is [monotone]. *)
Ltac monotone_step :=
  first
    [ apply monotone_draw | apply monotone_print | apply monotone_lift
    | apply monotone_raise | apply monotone_ret
    | apply monotone_marcha | apply monotone_pos_finales
    | apply monotone_bind; [| intros ?]
    | match goal with |- monotone (if ?b then _ else _) => destruct b end
    | match goal with |- monotone (let '(_, _) := ?p in _) => destruct p end ].

Lemma monotone_histograma (posi_finales : list Q) (n_pasos bins : Z) :
  monotone (histograma posi_finales n_pasos bins).
Proof. unfold histograma, plt.hist. unfold_plt. repeat monotone_step. Qed.

Lemma monotone_momentos_vs_N (valores_N : list Z) (runs : Z) :
  monotone (momentos_vs_N valores_N runs).
Proof.
  unfold momentos_vs_N. unfold_plt.
  apply monotone_bind.
  - apply monotone_for_each. intros N [medios medios_x2]. repeat monotone_step.
  - intros [medios medios_x2]. repeat monotone_step.
Qed.

Lemma monotone_menu_print : monotone menu_print.
Proof. unfold menu_print. repeat monotone_step. Qed.

Lemma monotone_main_bounded (k : nat) (stdin : list string) :
  (length stdin <= k)%nat -> monotone (main stdin).
Proof.
  revert stdin. induction k as [|k IH]; intros stdin Hlen.
  - destruct stdin; [| simpl in Hlen; lia].
    rewrite main_eof.
    apply monotone_bind; [apply monotone_menu_print | intros _; apply monotone_raise].
  - destruct stdin as [|opcion stdin].
    { rewrite main_eof.
      apply monotone_bind; [apply monotone_menu_print | intros _; apply monotone_raise]. }
    cbn [length] in Hlen. unfold main; cbn [main_with]; fold main.
    apply monotone_bind; [apply monotone_menu_print | intros _].
    repeat first
      [ apply IH; cbn [length] in *; lia
      | apply monotone_histograma | apply monotone_momentos_vs_N
      | apply monotone_for_each; intros [? [? ?]] ?
      | match goal with |- monotone (match ?l with [] => _ | _ :: _ => _ end) =>
          destruct l end
      | match goal with p : (_ * _ * _ * _)%type |- _ =>
          destruct p as [[[? ?] ?] ?] end
      | monotone_step ].
Qed.

Lemma monotone_main (stdin : list string) : monotone (main stdin).
Proof. by apply (monotone_main_bounded (length stdin)). Qed.

Lemma main_after_menu (stdin : list string) (w : World) :
  extends (written_on w menu_lines) (snd (main stdin w)).
Proof.
  destruct stdin as [|opcion stdin].
  { rewrite main_eof, bind_menu_print. apply extends_refl. }
  unfold main; cbn [main_with]; fold main. rewrite bind_menu_print.
  match goal with
  | |- extends ?w0 (snd (?m ?w0)) => generalize w0; change (monotone m)
  end.
  repeat first
    [ apply monotone_main
    | apply monotone_histograma | apply monotone_momentos_vs_N
    | apply monotone_for_each; intros [? [? ?]] ?
    | match goal with |- monotone (match ?l with [] => _ | _ :: _ => _ end) =>
        destruct l end
    | match goal with p : (_ * _ * _ * _)%type |- _ =>
        destruct p as [[[? ?] ?] ?] end
    | monotone_step ].
Qed.

(** X12: whatever the input, [main] only adds to the world: the entropy
    source is the same, no seed is given back, figures and output are
    only appended to, and the first thing written is the menu. *)
Theorem main_only_appends (stdin : list string) (w : World) :
  let w' := snd (main stdin w) in
  os_entropy w' = os_entropy w /\
  (rng_created w <= rng_created w')%nat /\
  figures w `prefix_of` figures w' /\
  (stdout w ++ menu_lines) `prefix_of` stdout w'.
Proof.
  cbv zeta. destruct (main_after_menu stdin w) as (He & Hr & Hf & Ho).
  cbn [written_on os_entropy rng_created figures stdout] in *. done.
Qed.

Lemma bind_ok_inv {A C} (m : M A) (k : A -> M C) (w : World) (c : C) :
  fst ((m ≫= k) w) = Ok c ->
  exists a w', m w = (Ok a, w') /\ fst (k a w') = Ok c.
Proof.
  unfold mbind, M_bind. destruct (m w) as [[a | e] w']; [| done].
  intros H. by exists a, w'.
Qed.

Lemma main_ok_bounded (k : nat) (stdin : list string) (w : World) :
  (length stdin <= k)%nat -> fst (main stdin w) = Ok tt -> "0" ∈ stdin.
Proof.
  revert stdin w. induction k as [|k IH]; intros stdin w Hlen Hok.
  - destruct stdin; [| simpl in Hlen; lia]. by rewrite main_eof in Hok.
  - destruct stdin as [|opcion stdin]; [by rewrite main_eof in Hok |].
    cbn [length] in Hlen. unfold main; cbn [main_with]; fold main in Hok.
    apply bind_ok_inv in Hok as (? & w1 & _ & Hok).
    destruct (String.eqb opcion "1") eqn:E1;
      [| destruct (String.eqb opcion "2") eqn:E2;
         [| destruct (String.eqb opcion "3") eqn:E3;
            [| destruct (String.eqb opcion "0") eqn:E0]]].
    5:{ apply bind_ok_inv in Hok as (? & ? & _ & Hok).
        apply list_elem_of_further, (IH stdin _ ltac:(lia) Hok). }
    4:{ apply String.eqb_eq in E0 as ->. apply list_elem_of_here. }
    all: apply bind_ok_inv in Hok as (? & ? & _ & Hok);
      destruct stdin as [|line1 stdin]; [discriminate Hok |];
      apply bind_ok_inv in Hok as (? & ? & _ & Hok);
      apply bind_ok_inv in Hok as (? & ? & _ & Hok).
    + apply bind_ok_inv in Hok as (? & ? & _ & Hok).
      do 2 apply list_elem_of_further.
      apply (IH stdin _ ltac:(cbn [length] in Hlen; lia) Hok).
    + destruct stdin as [|line2 stdin]; [discriminate Hok |].
      do 3 (apply bind_ok_inv in Hok as (? & ? & _ & Hok)).
      do 3 apply list_elem_of_further.
      apply (IH stdin _ ltac:(cbn [length] in Hlen; lia) Hok).
    + destruct stdin as [|line2 stdin]; [discriminate Hok |].
      apply bind_ok_inv in Hok as (? & ? & _ & Hok).
      apply bind_ok_inv in Hok as ([[[? ?] ?] ?] & ? & _ & Hok).
      do 4 (apply bind_ok_inv in Hok as (? & ? & _ & Hok)).
      do 3 apply list_elem_of_further.
      apply (IH stdin _ ltac:(cbn [length] in Hlen; lia) Hok).
Qed.

Lemma main_result_unit (stdin : list string) (w : World) :
  fst (main stdin w) = Ok tt \/ exists e, fst (main stdin w) = Raise e.
Proof. destruct (fst (main stdin w)) as [[] | e]; eauto. Qed.

(** X13: [main] ends normally only by the exit option: if it returns,
    the line ["0"] is among the input; on an input without it, [main]
    ends with an exception ([EOFError] when the input runs out). *)
Theorem main_returns_only_by_exit (stdin : list string) (w : World) :
  (fst (main stdin w) = Ok tt -> "0" ∈ stdin) /\
  ("0" ∉ stdin -> exists e, fst (main stdin w) = Raise e) /\
  main [] w = (Raise EOFError, written_on w menu_lines).
Proof.
  split; [apply (main_ok_bounded (length stdin)); lia |].
  split; [| by rewrite main_eof, bind_menu_print].
  intros Hno. destruct (main_result_unit stdin w) as [Hok | He]; [| done].
  exfalso. apply Hno. by apply (main_ok_bounded (length stdin) stdin w).
Qed.

Lemma main_returns_only_by_exit_witness :
  ("0" ∉ ["7"; "1"; "3"]) /\
  fst (main ["7"; "1"; "3"; "0"] w_ex) = Ok tt /\
  ("0" ∈ ["7"; "1"; "3"; "0"]) /\
  exists e, fst (main ["7"; "1"; "3"] w_ex) = Raise e.
Proof.
  assert (Hno : "0" ∉ ["7"; "1"; "3"]).
  { intros H%list_elem_of_In. simpl in H. intuition discriminate. }
  assert (Hok : fst (main ["7"; "1"; "3"; "0"] w_ex) = Ok tt) by (vm_compute; reflexivity).
  destruct (main_returns_only_by_exit ["7"; "1"; "3"; "0"] w_ex) as (H1 & _).
  destruct (main_returns_only_by_exit ["7"; "1"; "3"] w_ex) as (_ & H2 & _).
  split; [exact Hno |]. split; [exact Hok |]. split; [exact (H1 Hok) | exact (H2 Hno)].
Defined.

Lemma is_option_false (s : string) :
  is_option s = false -> s <> "1" /\ s <> "2" /\ s <> "3" /\ s <> "0".
Proof.
  unfold is_option. intros H.
  apply orb_false_iff in H as [H H0]. apply orb_false_iff in H as [H H3].
  apply orb_false_iff in H as [H1 H2].
  by repeat split; apply String.eqb_neq.
Qed.

(** X14: a run of lines that are no option of the menu costs one menu and
    one error message each and nothing else: [main] goes on with the
    lines after them, with no seed taken and no figure drawn. *)
Theorem main_skips_invalid_options (ops rest : list string) (w : World) :
  Forall (fun s => is_option s = false) ops ->
  main (ops ++ rest) w
  = main rest
      (written_on w (concat (map (fun _ => menu_lines ++ [OutText msg_no_valida]) ops))).
Proof.
  intros Hops. revert w. induction Hops as [|op ops Hop _ IH]; intros w.
  - cbn [app map concat]. unfold written_on. rewrite app_nil_r. by destruct w.
  - destruct (is_option_false _ Hop) as (H1 & H2 & H3 & H0).
    cbn [app map concat]. rewrite main_other by done.
    rewrite bind_menu_print, bind_print, IH.
    autorewrite with world. by rewrite <- !app_assoc.
Qed.

Lemma main_skips_invalid_options_witness :
  Forall (fun s => is_option s = false) ["x"; " 1"; "10"] /\
  main (["x"; " 1"; "10"] ++ ["0"]) w_ex
  = main ["0"]
      (written_on w_ex
         (concat (map (fun _ => menu_lines ++ [OutText msg_no_valida]) ["x"; " 1"; "10"]))).
Proof.
  assert (H : Forall (fun s => is_option s = false) ["x"; " 1"; "10"])
    by (repeat constructor).
  split; [exact H |]. exact (main_skips_invalid_options _ ["0"] w_ex H).
Defined.

(** ** Reading the list of step counts *)

Lemma split_chars_length (sep : ascii) (cur l : list ascii) :
  length (py.split_chars sep cur l) = S (length (List.filter (Ascii.eqb sep) l)).
Proof.
  revert cur. induction l as [|c l IH]; intros cur; [reflexivity |].
  cbn [py.split_chars List.filter]. rewrite (Ascii.eqb_sym sep c).
  destruct (Ascii.eqb c sep); cbn [length]; by rewrite IH.
Qed.

Lemma comprehension_length {A B} (f : A -> result B) (xs : list A) (ys : list B) :
  py.comprehension f xs = Ok ys -> length ys = length xs.
Proof.
  revert ys. induction xs as [|x xs IH]; intros ys H; cbn [py.comprehension] in H.
  - by injection H as <-.
  - destruct (f x); [| done]. destruct (py.comprehension f xs) as [zs |]; [| done].
    injection H as <-. cbn [length]. by rewrite (IH zs).
Qed.

Lemma comprehension_Forall {A B} (f : A -> result B) (xs : list A) (ys : list B) :
  py.comprehension f xs = Ok ys -> Forall2 (fun x y => f x = Ok y) xs ys.
Proof.
  revert ys. induction xs as [|x xs IH]; intros ys H; cbn [py.comprehension] in H.
  - injection H as <-. constructor.
  - destruct (f x) eqn:Ex; [| done].
    destruct (py.comprehension f xs) as [zs |]; [| done].
    injection H as <-. constructor; [done | by apply IH].
Qed.

(** X15: when the line of step counts is accepted, it yields one number
    more than it has commas, each the [int] of its piece: the list is
    never empty, so [momentos_vs_N] is never called from the menu with
    an empty list; a line with an empty piece (an empty line, two commas
    in a row, a comma at the end) is a [ValueError]. *)
Theorem lista_yields_one_more_than_commas (lista : string) (N_vals : list Z) :
  py.comprehension py.int (py.split "," lista) = Ok N_vals ->
  length N_vals = S (count_char "," lista) /\
  N_vals <> [] /\
  Forall2 (fun piece N => py.int piece = Ok N) (py.split "," lista) N_vals /\
  "" ∉ py.split "," lista.
Proof.
  intros H. pose proof (comprehension_length _ _ _ H) as Hlen.
  unfold py.split in Hlen at 1. rewrite split_chars_length in Hlen.
  split; [exact Hlen |]. split; [by destruct N_vals |].
  pose proof (comprehension_Forall _ _ _ H) as HF.
  split; [exact HF |].
  intros Hin. apply list_elem_of_lookup in Hin as (i & Hi).
  destruct (Forall2_lookup_l _ _ _ _ _ HF Hi) as (N & _ & HN).
  discriminate HN.
Qed.

Lemma lista_yields_one_more_than_commas_witness :
  py.comprehension py.int (py.split "," "100, 300,+6_00") = Ok [100; 300; 600] /\
  length [100; 300; 600] = S (count_char "," "100, 300,+6_00").
Proof.
  assert (H : py.comprehension py.int (py.split "," "100, 300,+6_00")
              = Ok [100; 300; 600]) by reflexivity.
  split; [exact H |].
  exact (proj1 (lista_yields_one_more_than_commas _ _ H)).
Defined.

(** ** The exceptions the menu loop cannot end with *)

Lemma bind_raise_inv {A C} (m : M A) (k : A -> M C) (w : World) (e : exn) :
  fst ((m ≫= k) w) = Raise e ->
  (exists w', m w = (Raise e, w'))
  \/ exists a w', m w = (Ok a, w') /\ fst (k a w') = Raise e.
Proof.
  unfold mbind, M_bind. destruct (m w) as [[a | e'] w'] eqn:E; intros H.
  - right. by exists a, w'.
  - left. exists w'. cbn [fst] in H. by injection H as ->.
Qed.

Lemma raises_only_bind {A C} (allowed : list exn) (m : M A) (k : A -> M C) :
  raises_only allowed m -> (forall a, raises_only allowed (k a)) ->
  raises_only allowed (m ≫= k).
Proof.
  intros Hm Hk w e H. apply bind_raise_inv in H as [[w' H] | (a & w' & _ & H)].
  - apply (Hm w). by rewrite H.
  - by apply (Hk a w').
Qed.

Lemma raises_only_ret {A} (allowed : list exn) (a : A) : raises_only allowed (mret a).
Proof. intros w e H. discriminate H. Qed.

Lemma raises_only_draw (allowed : list exn) (c : plt_cmd) : raises_only allowed (draw c).
Proof. intros w e H. discriminate H. Qed.

Lemma raises_only_print (allowed : list exn) (o : out) : raises_only allowed (print o).
Proof. intros w e H. discriminate H. Qed.

Lemma raises_only_for_each {A S} (allowed : list exn) (xs : list A)
    (body : A -> S -> M S) (s : S) :
  (forall x s, raises_only allowed (body x s)) ->
  raises_only allowed (for_each xs body s).
Proof.
  intros Hb. revert s. induction xs as [|x xs IH]; intros s; cbn [for_each].
  - apply raises_only_ret.
  - apply raises_only_bind; [apply Hb | apply IH].
Qed.

Lemma raises_only_marcha (n_pasos : Z) :
  raises_only [IndexError; ValueError] (marcha n_pasos).
Proof.
  intros w e H.
  destruct (Z_lt_le_dec n_pasos 0) as [Hneg | Hnn].
  - rewrite marcha_negative in H by done. injection H as <-.
    apply list_elem_of_further, list_elem_of_here.
  - destruct (Z.eq_dec n_pasos 0) as [-> | Hnz].
    + rewrite marcha_zero in H. injection H as <-. apply list_elem_of_here.
    + rewrite marcha_spec in H by lia. discriminate H.
Qed.

Lemma raises_only_pos_finales (n_pasos runs : Z) :
  raises_only [IndexError; ValueError] (pos_finales n_pasos runs).
Proof.
  intros w e H.
  destruct (Z_lt_le_dec runs 0) as [Hneg | Hnn].
  - rewrite pos_finales_negative_runs in H by done. injection H as <-.
    apply list_elem_of_further, list_elem_of_here.
  - destruct (Z.eq_dec runs 0) as [-> | Hnz].
    + rewrite pos_finales_no_runs in H. discriminate H.
    + destruct (fst (marcha n_pasos w)) as [x | e'] eqn:Em.
      * destruct (Z_lt_le_dec n_pasos 1) as [Hn | Hn].
        -- exfalso. destruct (Z.eq_dec n_pasos 0) as [-> | Hn0].
           ++ by rewrite marcha_zero in Em.
           ++ by rewrite marcha_negative in Em by lia.
        -- rewrite pos_finales_spec in H by lia. discriminate H.
      * rewrite (pos_finales_first_fails _ _ _ e') in H by (done || lia).
        injection H as <-. by apply (raises_only_marcha n_pasos w).
Qed.

Lemma pos_finales_ok_inv (n_pasos runs : Z) (w w' : World) (finales : list Q) :
  pos_finales n_pasos runs w = (Ok finales, w') ->
  finales = [] \/ (1 <= n_pasos /\ finales <> []).
Proof.
  intros H.
  destruct (Z_lt_le_dec runs 0) as [Hneg | Hnn].
  { by rewrite pos_finales_negative_runs in H. }
  destruct (Z.eq_dec runs 0) as [-> | Hnz].
  { rewrite pos_finales_no_runs in H. left. by injection H as <- _. }
  destruct (Z_lt_le_dec n_pasos 1) as [Hn | Hn].
  - exfalso.
    assert (He : exists e, fst (marcha n_pasos w) = Raise e).
    { destruct (Z.eq_dec n_pasos 0) as [-> | Hn0].
      - rewrite marcha_zero. by eexists.
      - rewrite marcha_negative by lia. by eexists. }
    destruct He as (e & He).
    by rewrite (pos_finales_first_fails _ _ _ e) in H by (done || lia).
  - right. split; [done |]. rewrite pos_finales_spec in H by lia.
    injection H as <- _. intros Hnil.
    apply (f_equal length) in Hnil. rewrite trials_length in Hnil.
    cbn [length] in Hnil. lia.
Qed.

Lemma raises_only_lift {A} (allowed : list exn) (r : result A) :
  (forall e, r = Raise e -> e ∈ allowed) -> raises_only allowed (lift r).
Proof. intros Hr w e H. by apply Hr. Qed.

Lemma histograma_after_pos_finales (n_pasos runs : Z) (w w' : World) (finales : list Q) :
  pos_finales n_pasos runs w = (Ok finales, w') ->
  forall e, fst (histograma finales n_pasos bins_default w') = Raise e -> e = ValueError.
Proof.
  intros H e He. apply pos_finales_ok_inv in H as [-> | [Hn Hne]].
  - rewrite histograma_empty in He. by injection He as <-.
  - destruct (py_min_spec _ Hne) as (lo & Hlo & _).
    destruct (py_max_spec _ Hne) as (hi & Hhi & _).
    rewrite (histograma_spec _ _ _ _ lo hi) in He by done. discriminate He.
Qed.

Lemma momentos_loop_lengths (valores_N : list Z) (runs : Z)
    (acc1 acc2 m1 m2 : list float64) (w w' : World) :
  for_each valores_N
    (fun N '(medios, medios_x2) =>
       finales ← pos_finales N runs;
       mret (medios ++ [np.mean finales], medios_x2 ++ [np.mean (np.squares finales)]))
    (acc1, acc2) w
  = (Ok (m1, m2), w') ->
  length m1 = (length acc1 + length valores_N)%nat /\
  length m2 = (length acc2 + length valores_N)%nat.
Proof.
  revert acc1 acc2 w. induction valores_N as [|N rest IH]; intros acc1 acc2 w H.
  - cbn [for_each] in H. injection H as <- <- _. cbn [length]. lia.
  - cbn [for_each] in H. unfold mbind at 1, M_bind at 1 in H.
    unfold mbind at 1, M_bind at 1 in H.
    destruct (pos_finales N runs w) as [[finales | e] w1]; [| done].
    apply IH in H as [H1 H2]. rewrite length_app in H1, H2.
    cbn [length] in *. lia.
Qed.

Lemma polyfit1_raises (x : list Q) (y : list float64) (e : exn) :
  x <> [] -> length x = length y -> np.polyfit1 x y = Raise e -> e = LinAlgError.
Proof.
  intros Hx Hlen. unfold np.polyfit1.
  destruct x as [|x0 x]; [done |]. cbn [length Nat.eqb].
  rewrite <- Hlen. cbn [length]. rewrite Nat.eqb_refl. cbn [negb].
  destruct (np.finite_values y).
  - unfold np.lstsq_line.
    destruct (Qeq_bool _ 0); [by intros [= <-] |].
    by destruct (Qeq_bool _ 0).
  - destruct (Qeq_bool _ 0); [by intros [= <-] | done].
Qed.

Lemma raises_only_momentos_vs_N (N : Z) (rest : list Z) (runs : Z) :
  raises_only [IndexError; ValueError; LinAlgError] (momentos_vs_N (N :: rest) runs).
Proof.
  intros w e H. unfold momentos_vs_N in H.
  apply bind_raise_inv in H as [[w1 H] | ([m1 m2] & w1 & Hloop & H)].
  - assert (Hin : e ∈ [IndexError; ValueError]).
    { apply (f_equal fst) in H. cbn [fst] in H.
      revert H. apply raises_only_for_each. intros x [a1 a2].
      apply raises_only_bind; [apply raises_only_pos_finales |].
      intros ?. apply raises_only_ret. }
    apply list_elem_of_In in Hin. apply list_elem_of_In.
    cbn [In] in *. tauto.
  - apply momentos_loop_lengths in Hloop as [_ Hlen]. cbn [length] in Hlen.
    apply bind_raise_inv in H as [[w2 H] | ([slope intercept] & w2 & _ & H)].
    + unfold lift in H. injection H as H _. apply polyfit1_raises in H as ->.
      * do 2 apply list_elem_of_further. apply list_elem_of_here.
      * done.
      * cbn [length]. rewrite length_map. lia.
    + revert H.
      repeat (apply raises_only_bind; [apply raises_only_draw | intros _]).
      apply raises_only_ret.
Qed.

Lemma raises_only_menu_print (allowed : list exn) : raises_only allowed menu_print.
Proof. intros w e H. rewrite menu_print_run in H. discriminate H. Qed.

Lemma raises_only_raise {A} (allowed : list exn) (e : exn) :
  e ∈ allowed -> raises_only (A := A) allowed (raise e).
Proof. intros He w e' [= <-]. exact He. Qed.

Ltac in_list := solve [repeat first [apply list_elem_of_here | apply list_elem_of_further]].

Lemma raises_only_incl {A} (l l' : list exn) (m : M A) :
  Forall (fun e => e ∈ l') l -> raises_only l m -> raises_only l' m.
Proof.
  intros Hsub H w e He. rewrite Forall_forall in Hsub.
  apply Hsub, (H w e He).
Qed.

Lemma comprehension_raises {A B} (f : A -> result B) (xs : list A) (e : exn) :
  py.comprehension f xs = Raise e -> exists x, f x = Raise e.
Proof.
  induction xs as [|x xs IH]; cbn [py.comprehension]; [done |].
  destruct (f x) eqn:Ex.
  - destruct (py.comprehension f xs); [done |].
    intros [= <-]. by apply IH.
  - intros [= <-]. by exists x.
Qed.

Section MainRaises.

Variable int : string -> result Z.
Hypothesis int_raises : forall s e, int s = Raise e -> e = ValueError.

Lemma raises_only_int (s : string) :
  raises_only [EOFError; ValueError; IndexError; LinAlgError] (lift (int s)).
Proof. apply raises_only_lift. intros e He. apply int_raises in He as ->. in_list. Qed.

Lemma main_with_raises_bounded (k : nat) (stdin : list string) :
  (length stdin <= k)%nat ->
  raises_only [EOFError; ValueError; IndexError; LinAlgError] (main_with int stdin).
Proof.
  revert stdin. induction k as [|k IH]; intros stdin Hlen.
  { destruct stdin; [| simpl in Hlen; lia]. cbn [main_with].
    apply raises_only_bind; [apply raises_only_menu_print | intros _].
    apply raises_only_raise. in_list. }
  destruct stdin as [|opcion stdin].
  { cbn [main_with].
    apply raises_only_bind; [apply raises_only_menu_print | intros _].
    apply raises_only_raise. in_list. }
  cbn [length] in Hlen. cbn [main_with].
  apply raises_only_bind; [apply raises_only_menu_print | intros _].
  destruct (String.eqb opcion "1");
    [| destruct (String.eqb opcion "2");
       [| destruct (String.eqb opcion "3");
          [| destruct (String.eqb opcion "0")]]].
  - apply raises_only_bind; [apply raises_only_print | intros _].
    destruct stdin as [|line stdin]; [apply raises_only_raise; in_list |].
    cbn [length] in Hlen.
    apply raises_only_bind; [apply raises_only_int |].
    intros N. apply raises_only_bind.
    { apply (raises_only_incl [IndexError; ValueError]); [| apply raises_only_marcha].
      repeat constructor; in_list. }
    intros pos_final.
    apply raises_only_bind; [apply raises_only_print | intros _].
    apply IH. lia.
  - apply raises_only_bind; [apply raises_only_print | intros _].
    destruct stdin as [|line1 stdin]; [apply raises_only_raise; in_list |].
    apply raises_only_bind; [apply raises_only_int |].
    intros N. apply raises_only_bind; [apply raises_only_print | intros _].
    destruct stdin as [|line2 stdin]; [apply raises_only_raise; in_list |].
    cbn [length] in Hlen.
    apply raises_only_bind; [apply raises_only_int |].
    intros runs w e H.
    apply bind_raise_inv in H as [[w' H] | (finales & w' & Hpf & H)].
    + apply (raises_only_incl [IndexError; ValueError]) with (m := pos_finales N runs) (w := w).
      * repeat constructor; in_list.
      * apply raises_only_pos_finales.
      * by rewrite H.
    + apply bind_raise_inv in H as [[w'' H] | (? & w'' & _ & H)].
      * apply (f_equal fst) in H. cbn [fst] in H.
        apply (histograma_after_pos_finales _ _ _ _ _ Hpf) in H as ->. in_list.
      * revert H. apply IH. lia.
  - apply raises_only_bind; [apply raises_only_print | intros _].
    destruct stdin as [|lista stdin]; [apply raises_only_raise; in_list |].
    intros w e H.
    apply bind_raise_inv in H as [[w' H] | (N_vals & w' & Hc & H)].
    { unfold lift in H. injection H as H _.
      apply comprehension_raises in H as (x & H). apply int_raises in H as ->. in_list. }
    unfold lift in Hc. injection Hc as Hc _.
    apply comprehension_length in Hc.
    unfold py.split in Hc. rewrite split_chars_length in Hc.
    destruct N_vals as [|N rest]; [discriminate Hc |].
    revert H. apply raises_only_bind; [apply raises_only_print | intros _].
    destruct stdin as [|line stdin]; [apply raises_only_raise; in_list |].
    cbn [length] in Hlen.
    apply raises_only_bind; [apply raises_only_int |].
    intros runs. apply raises_only_bind.
    { apply (raises_only_incl [IndexError; ValueError; LinAlgError]);
        [| apply raises_only_momentos_vs_N].
      repeat constructor; in_list. }
    intros [[[medios medios_x2] slope] D].
    apply raises_only_bind; [apply raises_only_print | intros _].
    apply raises_only_bind.
    { apply raises_only_for_each. intros [N' [u v]] _. apply raises_only_print. }
    intros _.
    apply raises_only_bind; [apply raises_only_print | intros _].
    apply raises_only_bind; [apply raises_only_print | intros _].
    apply IH. lia.
  - apply raises_only_ret.
  - apply raises_only_bind; [apply raises_only_print | intros _].
    apply IH. lia.
Qed.

End MainRaises.

(** X16: [histograma] raises [ZeroDivisionError] on data with a step
    count of zero, and [momentos_vs_N] raises [TypeError] on an empty
    list.  From the menu neither can happen, whatever strings [int]
    accepts (it fails with [ValueError] only): [histograma] gets the
    array that [pos_finales] made with the same step count, which has
    failed before when the step count is zero and runs were asked for,
    and the list that is read is never empty.  So the menu loop never
    ends with [ZeroDivisionError] or [TypeError]. *)
Theorem main_never_divides_by_zero
    (int : string -> result Z) (stdin : list string) (w : World) (e : exn) :
  (forall s e', int s = Raise e' -> e' = ValueError) ->
  fst (main_with int stdin w) = Raise e ->
  e <> ZeroDivisionError /\ e <> TypeError /\
  fst (histograma [1%Q] 0 bins_default w) = Raise ZeroDivisionError /\
  fst (momentos_vs_N [] 1 w) = Raise TypeError.
Proof.
  intros Hint He.
  pose proof (main_with_raises_bounded int Hint (length stdin) stdin ltac:(lia) w e He)
    as Hin.
  apply list_elem_of_In in Hin. cbn [In] in Hin.
  split; [intuition congruence |]. split; [intuition congruence |].
  split; [by rewrite histograma_zero_steps | reflexivity].
Qed.

Lemma main_never_divides_by_zero_witness :
  (forall s e', py.int s = Raise e' -> e' = ValueError) /\
  fst (main_with py.int ["2"; "0"; "3"] w_ex) = Raise IndexError /\
  IndexError <> ZeroDivisionError /\ IndexError <> TypeError.
Proof.
  assert (H : fst (main_with py.int ["2"; "0"; "3"] w_ex) = Raise IndexError)
    by (vm_compute; reflexivity).
  split; [exact py_int_raises |]. split; [exact H |].
  destruct (main_never_divides_by_zero py.int _ w_ex _ py_int_raises H) as (H1 & H2 & _).
  split; [exact H1 | exact H2].
Defined.
